(** * Cashback matrix reconciliation: the pipeline of [DataTable.tsx]

    A shallow embedding of the pure computation that [DataTable] runs in its
    [useMemo] block (normalisation, de-duplication, per-bank Top-N selection,
    matrix construction), of the winner computation shared by the table body
    and [downloadCheatSheet], and of the two exporters [copyToClipboard] and
    [downloadCheatSheet]. Around the pipeline it embeds the table body's
    cell styling, the settings handlers and the data handlers of [App], the
    answer handling of the extraction service and the drop handler of the
    upload zone.

    Conventions of the embedding:
    - a JavaScript string is the list of its UTF-16 code units ([list N]);
    - a [number] holding a percentage or a limit is an integer ([Z]); NaN,
      infinities and fractional values lie outside the model;
    - [Map<string, CashbackEntry>] is an insertion-ordered association list,
      because [Array.from(map.values())] exposes the insertion order;
    - [Set<string>] and [Map<string, number>] that are only queried are
      stdpp's [gset] and [gmap];
    - [bankConfigs : Record<string, BankConfig>] is the list of its own
      properties in [Object.keys] order (insertion order, the bank names
      not being array indices);
    - [String.prototype.toLowerCase] is a parameter of the development: every
      general theorem holds for any lower-casing function, and the worked
      examples instantiate it with simple case folding on Basic Latin,
      Latin-1 and Cyrillic. *)

From Stdlib Require Import ZArith NArith List Ascii String DecimalString Lia.
From Stdlib Require Import Sorted DecimalPos.
From stdpp Require Import base decidable countable list gmap.

Local Open Scope Z_scope.
Local Open Scope list_scope.

(** ** Strings as UTF-16 code units *)

Abbreviation jsstring := (list N).

Module JsString.

(** Source literals are written as Rocq strings (UTF-8 bytes) and decoded
    into code units; astral code points become surrogate pairs. *)
Fixpoint utf16_of_utf8 (bs : list N) : jsstring :=
  match bs with
  | [] => []
  | b0 :: r0 =>
    if (b0 <? 128)%N then b0 :: utf16_of_utf8 r0
    else
      match r0 with
      | [] => []
      | b1 :: r1 =>
        if (b0 <? 224)%N
        then ((b0 - 192) * 64 + (b1 - 128))%N :: utf16_of_utf8 r1
        else
          match r1 with
          | [] => []
          | b2 :: r2 =>
            if (b0 <? 240)%N
            then ((b0 - 224) * 4096 + (b1 - 128) * 64 + (b2 - 128))%N
                   :: utf16_of_utf8 r2
            else
              match r2 with
              | [] => []
              | b3 :: r3 =>
                let cp := ((b0 - 240) * 262144 + (b1 - 128) * 4096
                           + (b2 - 128) * 64 + (b3 - 128))%N in
                let v := (cp - 65536)%N in
                (55296 + v / 1024)%N :: (56320 + v mod 1024)%N
                  :: utf16_of_utf8 r3
              end
          end
      end
  end.

Definition lit (s : string) : jsstring :=
  utf16_of_utf8 (List.map N_of_ascii (list_ascii_of_string s)).

(** [WhiteSpace] and [LineTerminator] code points of ECMAScript, the ones
    [String.prototype.trim] strips. *)
Definition isWhiteSpace (c : N) : bool :=
  ((9 <=? c) && (c <=? 13) || (c =? 32) || (c =? 160) || (c =? 5760)
   || (8192 <=? c) && (c <=? 8202) || (c =? 8232) || (c =? 8233)
   || (c =? 8239) || (c =? 8287) || (c =? 12288) || (c =? 65279))%N.

Fixpoint trimStart (s : jsstring) : jsstring :=
  match s with
  | [] => []
  | c :: s' => if isWhiteSpace c then trimStart s' else s
  end.

Definition trimEnd (s : jsstring) : jsstring :=
  rev (trimStart (rev s)).

Definition trim (s : jsstring) : jsstring := trimEnd (trimStart s).

Fixpoint startsWith (pat s : jsstring) : bool :=
  match pat, s with
  | [], _ => true
  | _ :: _, [] => false
  | p :: pat', c :: s' => (p =? c)%N && startsWith pat' s'
  end.

(** [s.includes(pat)]: [pat] occurs in [s] as a contiguous run. *)
Fixpoint includes (s pat : jsstring) : bool :=
  startsWith pat s
  || match s with
     | [] => false
     | _ :: s' => includes s' pat
     end.

(** [arr.join(sep)] on an array of strings. *)
Fixpoint join (sep : jsstring) (parts : list jsstring) : jsstring :=
  match parts with
  | [] => []
  | [p] => p
  | p :: ps => p ++ sep ++ join sep ps
  end.

(** Code-unit order, the order of [<] on strings and of the default
    comparator of [Array.prototype.sort]. *)
Fixpoint ltb (s t : jsstring) : bool :=
  match s, t with
  | _, [] => false
  | [], _ :: _ => true
  | a :: s', b :: t' => (a <? b)%N || (a =? b)%N && ltb s' t'
  end.

(** Template-literal rendering of an integer-valued number (plain decimal
    digits, as JavaScript prints integers below 10^21 in magnitude). *)
Definition ofNumber (n : Z) : jsstring :=
  lit (NilZero.string_of_int (Z.to_int n)).

(** Simple case folding of one code unit: Basic Latin, Latin-1 and the
    Cyrillic block; used to instantiate [toLowerCase] in the examples. *)
Definition lowerUnit (c : N) : N :=
  if ((65 <=? c) && (c <=? 90))%N then (c + 32)%N
  else if ((192 <=? c) && (c <=? 222) && negb (c =? 215))%N then (c + 32)%N
  else if ((1040 <=? c) && (c <=? 1071))%N then (c + 32)%N
  else if ((1024 <=? c) && (c <=? 1039))%N then (c + 80)%N
  else c.

Definition toLowerCaseSimple (s : jsstring) : jsstring :=
  List.map lowerUnit s.

End JsString.

Definition js (s : string) : jsstring := JsString.lit s.
Arguments js s%_string.

(** ** Data model ([types.ts], [App.tsx]) *)

Module Entry.
(** [interface CashbackEntry] *)
Record t := mk {
  id : jsstring;
  bankName : jsstring;
  category : jsstring;
  percentage : Z;
  originalText : option jsstring
}.

#[global] Instance eq_dec : EqDecision t.
Proof. solve_decision. Defined.
End Entry.

Module BankConfig.
(** [interface BankConfig] *)
Record t := mk {
  enabled : bool;
  limit : Z;
  color : jsstring
}.
End BankConfig.

Module Cell.
(** The object literal [{ bank, percentage: val, isSelected }]; [val] is
    [number | undefined]. *)
Record t := mk {
  bank : jsstring;
  percentage : option Z;
  isSelected : bool
}.

#[global] Instance eq_dec : EqDecision t.
Proof. solve_decision. Defined.
End Cell.

Module Row.
(** The object literal [{ name: cat, values: [...] }]. *)
Record t := mk {
  name : jsstring;
  values : list Cell.t
}.

#[global] Instance eq_dec : EqDecision t.
Proof. solve_decision. Defined.
End Row.

(** [Record<string, BankConfig>]: own properties in enumeration order. *)
Abbreviation bankConfigs_t := (list (jsstring * BankConfig.t)).

(** ** Insertion-ordered [Map] *)

Module OMap.
Section WithValue.
Context {V : Type}.

Fixpoint get (k : jsstring) (m : list (jsstring * V)) : option V :=
  match m with
  | [] => None
  | (k', v) :: m' => if decide (k' = k) then Some v else get k m'
  end.

(** [map.set(k, v)]: an existing key keeps its position, a new key goes
    to the end. *)
Fixpoint set (k : jsstring) (v : V) (m : list (jsstring * V))
  : list (jsstring * V) :=
  match m with
  | [] => [(k, v)]
  | (k', v') :: m' =>
    if decide (k' = k) then (k', v) :: m' else (k', v') :: set k v m'
  end.

Definition keys (m : list (jsstring * V)) : list jsstring := List.map fst m.
Definition values (m : list (jsstring * V)) : list V := List.map snd m.
End WithValue.
End OMap.

(** ** Array helpers *)

Module JsArray.
Section Generic.
Context {A : Type}.

(** [arr.slice(0, end)] with the relative-index rule for a negative
    [end]. *)
Definition slice0 (l : list A) (end_ : Z) : list A :=
  let len := Z.of_nat (length l) in
  let final := if end_ <? 0 then Z.max (len + end_) 0 else Z.min end_ len in
  take (Z.to_nat final) l.

(** Stable insertion sort for a comparator given as "[y] must come
    strictly before [x]". *)
Fixpoint insertBy (before : A → A → bool) (x : A) (l : list A) : list A :=
  match l with
  | [] => [x]
  | y :: l' => if before y x then y :: insertBy before x l' else x :: l
  end.

Fixpoint sortBy (before : A → A → bool) (l : list A) : list A :=
  match l with
  | [] => []
  | x :: l' => insertBy before x (sortBy before l')
  end.
End Generic.

(** [Array.from(new Set(arr))]: distinct elements in order of first
    occurrence. *)
Definition fromSet (l : list jsstring) : list jsstring :=
  fold_left (λ acc x, if decide (x ∈ acc) then acc else acc ++ [x]) l [].

(** [arr.sort()] on strings: ascending code-unit order. *)
Definition sortStrings (l : list jsstring) : list jsstring :=
  sortBy JsString.ltb l.

(** [arr.includes(x)] on strings. *)
Definition includes (l : list jsstring) (x : jsstring) : bool :=
  bool_decide (x ∈ l).
End JsArray.

(** The separator of the joined keys. *)
Definition bar : jsstring := js "|".

(** ** The [useMemo] pipeline of [DataTable] *)

Section Pipeline.

Variable toLowerCase : jsstring → jsstring.

(** *** Step 1: normalise and de-duplicate *)

(** The five sequential [if (normBank.includes(..)) normBank = ..]
    statements on the mutable [normBank]. *)
Definition normalizeBank (bankName : jsstring) : jsstring :=
  let normBank := bankName in
  let normBank :=
    if JsString.includes normBank (js "Tinkoff") then js "T-Bank" else normBank in
  let normBank :=
    if JsString.includes normBank (js "Сбер") then js "Sber" else normBank in
  let normBank :=
    if JsString.includes normBank (js "Альфа") then js "Alfa" else normBank in
  let normBank :=
    if JsString.includes normBank (js "ВТБ") then js "VTB" else normBank in
  let normBank :=
    if JsString.includes normBank (js "Яндекс") then js "Yandex" else normBank in
  normBank.

Definition normCat (entry : Entry.t) : jsstring :=
  toLowerCase (JsString.trim (Entry.category entry)).

(** [`${normBank}|${normCat}`] *)
Definition key (entry : Entry.t) : jsstring :=
  normalizeBank (Entry.bankName entry) ++ bar ++ normCat entry.

(** [{ ...entry, bankName: normBank, category: entry.category.trim() }] *)
Definition stored (entry : Entry.t) : Entry.t :=
  Entry.mk (Entry.id entry)
           (normalizeBank (Entry.bankName entry))
           (JsString.trim (Entry.category entry))
           (Entry.percentage entry)
           (Entry.originalText entry).

(** The body of [data.forEach(entry => ...)]. *)
Definition dedupStep (uniqueEntries : list (jsstring * Entry.t))
           (entry : Entry.t) : list (jsstring * Entry.t) :=
  match OMap.get (key entry) uniqueEntries with
  | None => OMap.set (key entry) (stored entry) uniqueEntries
  | Some existing =>
    if Entry.percentage entry >? Entry.percentage existing
    then OMap.set (key entry) (stored entry) uniqueEntries
    else uniqueEntries
  end.

Definition uniqueEntries (data : list Entry.t) : list (jsstring * Entry.t) :=
  fold_left dedupStep data [].

Definition cleanData (data : list Entry.t) : list Entry.t :=
  OMap.values (uniqueEntries data).

(** *** Step 2: Top-N per active bank *)

Definition configOf (bankConfigs : bankConfigs_t) (b : jsstring)
  : option BankConfig.t := OMap.get b bankConfigs.

(** [bankConfigs[b].enabled]; every [b] it is asked about is a key. *)
Definition isEnabled (bankConfigs : bankConfigs_t) (b : jsstring) : bool :=
  match configOf bankConfigs b with
  | Some c => BankConfig.enabled c
  | None => false
  end.

(** [Object.keys(bankConfigs).filter(b => bankConfigs[b].enabled)] *)
Definition activeBanks (bankConfigs : bankConfigs_t) : list jsstring :=
  List.filter (isEnabled bankConfigs) (OMap.keys bankConfigs).

(** [bankConfigs[bank]?.limit || 5]: [undefined] and [0] are both falsy. *)
Definition limitOf (bankConfigs : bankConfigs_t) (bank : jsstring) : Z :=
  match configOf bankConfigs bank with
  | Some c => if BankConfig.limit c =? 0 then 5 else BankConfig.limit c
  | None => 5
  end.

(** [cleanData.filter(d => d.bankName === bank)] followed by
    [sort((a, b) => b.percentage - a.percentage)], a stable sort. *)
Definition bankEntries (clean : list Entry.t) (bank : jsstring) : list Entry.t :=
  JsArray.sortBy
    (λ a b, Entry.percentage a >? Entry.percentage b)
    (List.filter (λ d, bool_decide (Entry.bankName d = bank)) clean).

(** [`${bank}|${entry.category.toLowerCase()}`] *)
Definition selectionKey (bank : jsstring) (category : jsstring) : jsstring :=
  bank ++ bar ++ toLowerCase category.

Definition topN (bankConfigs : bankConfigs_t) (clean : list Entry.t)
           (bank : jsstring) : list Entry.t :=
  JsArray.slice0 (bankEntries clean bank) (limitOf bankConfigs bank).

(** The body of [activeBanks.forEach(bank => ...)]. *)
Definition selectStep (bankConfigs : bankConfigs_t) (clean : list Entry.t)
           (sel : gset jsstring) (bank : jsstring) : gset jsstring :=
  fold_left
    (λ sel entry, sel ∪ {[ selectionKey bank (Entry.category entry) ]})
    (topN bankConfigs clean bank) sel.

Definition bankSelections (bankConfigs : bankConfigs_t) (clean : list Entry.t)
  : gset jsstring :=
  fold_left (selectStep bankConfigs clean) (activeBanks bankConfigs) ∅.

(** *** Step 3: matrix rows *)

Definition relevantData (bankConfigs : bankConfigs_t) (clean : list Entry.t)
  : list Entry.t :=
  List.filter
    (λ d, JsArray.includes (activeBanks bankConfigs) (Entry.bankName d))
    clean.

Definition allCategories (bankConfigs : bankConfigs_t) (clean : list Entry.t)
  : list jsstring :=
  JsArray.sortStrings
    (JsArray.fromSet (List.map Entry.category (relevantData bankConfigs clean))).

(** [`${d.bankName}|${d.category}`] *)
Definition matrixKey (bank category : jsstring) : jsstring :=
  bank ++ bar ++ category.

Definition matrixMap (clean : list Entry.t) : gmap jsstring Z :=
  fold_left
    (λ m d, <[ matrixKey (Entry.bankName d) (Entry.category d)
               := Entry.percentage d ]> m)
    clean ∅.

Definition cellOf (mm : gmap jsstring Z) (sel : gset jsstring)
           (cat bank : jsstring) : Cell.t :=
  let val := mm !! matrixKey bank cat in
  let isSelected := bool_decide (selectionKey bank cat ∈ sel) in
  Cell.mk bank val isSelected.

Definition buildMatrix (bankConfigs : bankConfigs_t) (clean : list Entry.t)
  : list Row.t :=
  let sel := bankSelections bankConfigs clean in
  let mm := matrixMap clean in
  List.map
    (λ cat, Row.mk cat (List.map (cellOf mm sel cat) (activeBanks bankConfigs)))
    (allCategories bankConfigs clean).

(** The two results of the memoised block. *)
Definition matrix (data : list Entry.t) (bankConfigs : bankConfigs_t)
  : list Row.t :=
  buildMatrix bankConfigs (cleanData data).

Definition targetBanks (bankConfigs : bankConfigs_t) : list jsstring :=
  activeBanks bankConfigs.

End Pipeline.

(** ** Winner resolution (table body and [downloadCheatSheet]) *)

Definition isActive (v : Cell.t) : bool :=
  Cell.isSelected v && bool_decide (Cell.percentage v ≠ None).

(** [row.values.filter(v => v.isSelected && v.percentage !== undefined)] *)
Definition activeValues (row : Row.t) : list Cell.t :=
  List.filter isActive (Row.values row).

(** [Math.max(...xs)] on a non-empty argument list. *)
Definition mathMax (x : Z) (xs : list Z) : Z := fold_left Z.max xs x.

(** [activeValues.length > 0 ? Math.max(...) : -1] *)
Definition maxActivePercent (row : Row.t) : Z :=
  match omap Cell.percentage (activeValues row) with
  | [] => -1
  | p :: ps => mathMax p ps
  end.

(** [isSelected && cell.percentage === maxActivePercent] *)
Definition isWinner (row : Row.t) (cell : Cell.t) : bool :=
  Cell.isSelected cell
  && bool_decide (Cell.percentage cell = Some (maxActivePercent row)).

Definition winners (row : Row.t) : list Cell.t :=
  List.filter (isWinner row) (Row.values row).

(** ** Exporters *)

Definition tab : jsstring := [9%N].
Definition newline : jsstring := [10%N].
Definition percentSign : jsstring := js "%".

(** [v.percentage ? `${v.percentage}%` : ''] *)
Definition exportCell (v : Cell.t) : jsstring :=
  match Cell.percentage v with
  | Some p => if p =? 0 then [] else JsString.ofNumber p ++ percentSign
  | None => []
  end.

(** The cell renderer of the table body:
    [hasValue ? `${cell.percentage}%` : '-']. *)
Definition displayCell (cell : Cell.t) : jsstring :=
  match Cell.percentage cell with
  | Some p => JsString.ofNumber p ++ percentSign
  | None => js "-"
  end.

Definition exportHeader (targetBanks : list jsstring) : jsstring :=
  js "Категория" ++ tab ++ JsString.join tab targetBanks.

Definition exportRow (row : Row.t) : jsstring :=
  let vals := JsString.join tab (List.map exportCell (Row.values row)) in
  Row.name row ++ tab ++ vals.

(** The text handed to [navigator.clipboard.writeText]. *)
Definition copyToClipboard (matrix : list Row.t) (targetBanks : list jsstring)
  : jsstring :=
  let header := exportHeader targetBanks in
  let rows := JsString.join newline (List.map exportRow matrix) in
  header ++ newline ++ rows.

(** [`${w.bank} (${w.percentage}%)`]; an [undefined] percentage would print
    as the word. *)
Definition winnerLabel (w : Cell.t) : jsstring :=
  Cell.bank w ++ js " ("
    ++ match Cell.percentage w with
       | Some p => JsString.ofNumber p
       | None => js "undefined"
       end
    ++ js "%)".

Definition cheatLine (row : Row.t) : jsstring :=
  let winnerText := JsString.join (js " или ") (List.map winnerLabel (winners row)) in
  js "✅ " ++ Row.name row ++ js ": " ++ winnerText.

(** The body of [matrix.forEach(row => ...)]: [lines.push] on the shared
    array. *)
Definition cheatStep (lines : list jsstring) (row : Row.t) : list jsstring :=
  if (0 <? length (winners row))%nat then lines ++ [cheatLine row] else lines.

(** The [lines] array of [downloadCheatSheet] just before [lines.join];
    [date] is the locale-formatted month and year. *)
Definition cheatSheetLines (date : jsstring) (matrix : list Row.t)
  : list jsstring :=
  let lines := [js "📋 ПАМЯТКА ПО КЭШБЭКУ"; js "====================="] in
  let lines := lines ++ [js "📅 " ++ date ++ newline] in
  let lines := fold_left cheatStep matrix lines in
  let lines := lines ++ [newline ++ js "====================="] in
  let lines := lines ++ [js "Сгенерировано AI Cashacker"] in
  lines.

(** The content of the downloaded file. *)
Definition downloadCheatSheet (date : jsstring) (matrix : list Row.t)
  : jsstring :=
  JsString.join newline (cheatSheetLines date matrix).

(** ** Vocabulary of the specification *)

(** The separator [|] does not occur in the string. *)
Definition barFree (s : jsstring) : Prop := 124%N ∉ s.

#[global] Instance barFree_dec s : Decision (barFree s).
Proof. unfold barFree. apply _. Defined.

(** The alias table the specification describes: an ordered list of
    (pattern, canonical tag) pairs scanned in priority order. *)
Definition aliasTable : list (jsstring * jsstring) :=
  [ (js "Tinkoff", js "T-Bank");
    (js "Сбер", js "Sber");
    (js "Альфа", js "Alfa");
    (js "ВТБ", js "VTB");
    (js "Яндекс", js "Yandex") ].

Fixpoint firstAlias (table : list (jsstring * jsstring)) (bankName : jsstring)
  : option jsstring :=
  match table with
  | [] => None
  | (pat, tag) :: table' =>
    if JsString.includes bankName pat then Some tag
    else firstAlias table' bankName
  end.

Definition canonicalTags : list jsstring := List.map snd aliasTable.

Section Vocabulary.

Variable toLowerCase : jsstring → jsstring.

(** The (canonical bank, trimmed lower-cased category) pair of a raw
    entry. *)
Definition pairKey (e : Entry.t) : jsstring * jsstring :=
  (normalizeBank (Entry.bankName e), normCat toLowerCase e).

(** The same pair read off an entry of the de-duplicated list, whose bank
    is already canonical and whose category is already trimmed. *)
Definition storedPair (o : Entry.t) : jsstring * jsstring :=
  (Entry.bankName o, toLowerCase (Entry.category o)).

(** The joined key of an entry of the de-duplicated list, as the Selector
    recomputes it. *)
Definition storedKey (o : Entry.t) : jsstring :=
  selectionKey toLowerCase (Entry.bankName o) (Entry.category o).


(** The de-duplicated offers of one bank. *)
Definition offers (clean : list Entry.t) (bank : jsstring) : list Entry.t :=
  List.filter (λ d, bool_decide (Entry.bankName d = bank)) clean.

(** An offer counts as selected when its key is in [bankSelections]; this
    is the test [cellOf] applies. *)
Definition isSelectedOffer (bankConfigs : bankConfigs_t)
           (clean : list Entry.t) (bank : jsstring) (e : Entry.t) : bool :=
  bool_decide (selectionKey toLowerCase bank (Entry.category e)
               ∈ bankSelections toLowerCase bankConfigs clean).

Definition selectedCount (bankConfigs : bankConfigs_t)
           (clean : list Entry.t) (bank : jsstring) : nat :=
  length (List.filter (isSelectedOffer bankConfigs clean bank)
                      (offers clean bank)).

End Vocabulary.

(** A row with a non-empty winner set. *)
Definition hasWinner (row : Row.t) : bool := bool_decide (winners row ≠ []).

(** ** Worked inputs *)

Module Examples.

Definition lower := JsString.toLowerCaseSimple.

Definition entry (n : Z) (bank cat : jsstring) (pct : Z) : Entry.t :=
  Entry.mk (JsString.ofNumber n) bank cat pct None.

Definition on (lim : Z) : BankConfig.t := BankConfig.mk true lim [].
Definition off (lim : Z) : BankConfig.t := BankConfig.mk false lim [].

(** What the taxi examples need from [toLowerCase]: both spellings of the
    category lower-case to the same text, as they do in JavaScript. *)
Definition lowersTaxi (toLowerCase : jsstring → jsstring) : Prop :=
  toLowerCase (js "Такси") = js "такси"
  ∧ toLowerCase (js "такси") = js "такси".

(** The taxi example of the specification. *)
Definition taxiData : list Entry.t :=
  [ entry 1 (js "Sber") (js "Такси") 5;
    entry 2 (js "Sber") (js "такси ") 7;
    entry 3 (js "T-Bank") (js "Такси") 6 ].

Definition taxiConfig : bankConfigs_t :=
  [ (js "Sber", on 5); (js "T-Bank", on 5) ].

(** A bank whose limit was set to 0 through [updateLimit]. *)
Definition zeroLimitData : list Entry.t :=
  [ entry 1 (js "Sber") (js "Такси") 5 ].

Definition zeroLimitConfig : bankConfigs_t :=
  [ (js "Sber", on 0) ].

(** Six offers of a bank whose limit is 0. *)
Definition sixOffers : list Entry.t :=
  [ entry 1 (js "Sber") (js "A") 1;
    entry 2 (js "Sber") (js "B") 2;
    entry 3 (js "Sber") (js "C") 3;
    entry 4 (js "Sber") (js "D") 4;
    entry 5 (js "Sber") (js "E") 5;
    entry 6 (js "Sber") (js "F") 6 ].

(** An offer of 0%, the default the extraction layer fills in. *)
Definition zeroPercentData : list Entry.t :=
  [ entry 1 (js "Sber") (js "Такси") 0 ].

Definition sberOnly : bankConfigs_t :=
  [ (js "Sber", on 5) ].

(** The tie example of the specification. *)
Definition cafeData : list Entry.t :=
  [ entry 1 (js "Sber") (js "Кафе") 5;
    entry 2 (js "Alfa") (js "Кафе") 5 ].

Definition cafeConfig : bankConfigs_t :=
  [ (js "Sber", on 5); (js "Alfa", on 5) ].


(** One bank switched off. *)
Definition mixedData : list Entry.t :=
  [ entry 1 (js "Sber") (js "Такси") 5;
    entry 2 (js "Alfa") (js "Кафе") 7;
    entry 3 (js "Alfa") (js "Такси") 3 ].

Definition mixedConfig : bankConfigs_t :=
  [ (js "Sber", on 5); (js "Alfa", off 5) ].

(** Rows for exercising the winner rule on its own. *)
Definition sber7 : Cell.t := Cell.mk (js "Sber") (Some 7) true.
Definition alfa7 : Cell.t := Cell.mk (js "Alfa") (Some 7) true.
Definition vtb9 : Cell.t := Cell.mk (js "VTB") (Some 9) false.

Definition tiedRow : Row.t := Row.mk (js "Кафе") [sber7; vtb9; alfa7].
Definition idleRow : Row.t := Row.mk (js "Кафе") [vtb9].

End Examples.


(** ** The table body of [DataTable] *)

(** The class chosen for a cell in [row.values.map((cell) => ...)]. *)
Definition cellClass (row : Row.t) (cell : Cell.t) : jsstring :=
  let hasValue := bool_decide (Cell.percentage cell ≠ None) in
  let isSelected := Cell.isSelected cell in
  let winner := isWinner row cell in
  let cellClass := js "text-slate-700" in
  if hasValue then
    if winner then
      js "bg-emerald-500/20 text-emerald-400 font-bold border-2 border-emerald-500/50"
    else if isSelected then js "bg-emerald-900/10 text-emerald-600 font-medium"
    else js "text-slate-500 bg-slate-800/40"
  else cellClass.

(** ** Global functions of the language *)

Module JsGlobal.

(** The value of a code unit as a digit of radix up to 36. *)
Definition digitValue (c : N) : option Z :=
  if ((48 <=? c) && (c <=? 57))%N then Some (Z.of_N c - 48)
  else if ((97 <=? c) && (c <=? 122))%N then Some (Z.of_N c - 87)
  else if ((65 <=? c) && (c <=? 90))%N then Some (Z.of_N c - 55)
  else None.

(** The longest prefix of [s] made of digits of the radix. *)
Fixpoint radixDigits (radix : Z) (s : jsstring) : list Z :=
  match s with
  | [] => []
  | c :: s' =>
    match digitValue c with
    | Some d => if d <? radix then d :: radixDigits radix s' else []
    | None => []
    end
  end.

Definition digitsValue (radix : Z) (ds : list Z) : Z :=
  fold_left (λ acc d, acc * radix + d) ds 0.

(** [parseInt(string)] without a radix: leading white space, an optional
    sign, an optional [0x] prefix, then the longest run of digits; [None]
    is NaN. Values are exact integers (no rounding to a double). *)
Definition parseInt (string : jsstring) : option Z :=
  let str := JsString.trimStart string in
  let '(sign, str) :=
    match str with
    | 45%N :: str' => (-1, str')
    | 43%N :: str' => (1, str')
    | _ => (1, str)
    end in
  let '(radix, str) :=
    match str with
    | 48%N :: x :: str' =>
      if ((x =? 120) || (x =? 88))%N then (16, str') else (10, str)
    | _ => (10, str)
    end in
  match radixDigits radix str with
  | [] => None
  | ds => Some (sign * digitsValue radix ds)
  end.

End JsGlobal.

(** ** The upload zone ([UploadZone.tsx]) *)

Module Upload.

(** The two properties of a [File] the program reads. *)
Record File := mkFile {
  name : jsstring;
  type : jsstring
}.

#[global] Instance File_eq_dec : EqDecision File.
Proof. solve_decision. Defined.

(** [file.type.startsWith('image/')] *)
Definition isImage (file : File) : bool :=
  JsString.startsWith (js "image/") (type file).


(** [handleFileInputChange]; [chosen] is [e.target.files]. *)
Definition handleFileInputChange (chosen : option (list File))
  : option (list File) :=
  match chosen with
  | Some files =>
    if (0 <? length files)%nat then Some (List.filter isImage files) else None
  | None => None
  end.

End Upload.

(** ** The extraction service ([geminiService])

    The model's answer is an input of the embedding: the call fails, or
    yields no text, or yields text that parses into an array of items, whose
    fields are typed as the [responseSchema] declares and may be absent. The
    random part of a generated id is an input as well. *)

Module Service.

Record item := mkItem {
  id : option jsstring;
  bankName : option jsstring;
  category : option jsstring;
  percentage : option Z
}.

Inductive response :=
| Rejected                        (* generateContent or JSON.parse throws *)
| NoText                          (* response.text is undefined or empty *)
| Parsed (rawData : list item).

(** [x || d] for an optional string: a missing value and '' are falsy. *)
Definition orString (x : option jsstring) (d : jsstring) : jsstring :=
  match x with
  | Some (c :: s) => c :: s
  | _ => d
  end.

(** [x || 0] for an optional number; also
    [typeof x === 'number' ? x : parseFloat(x) || 0], where
    [parseFloat(undefined)] is NaN. *)
Definition orZero (x : option Z) : Z :=
  match x with
  | Some z => z
  | None => 0
  end.

(** [!text || text.trim().length === 0] *)
Definition isBlank (text : jsstring) : bool :=
  bool_decide (JsString.trim text = []).

(** [refineDataWithContext]; [None] is a rejected promise. [nonce i] is the
    text [`${Date.now()}-${Math.random()...}`] made for the item at index
    [i]. *)
Definition refineDataWithContext (currentData : list Entry.t)
           (userInstruction : jsstring) (answer : response)
           (nonce : nat → jsstring) : option (list Entry.t) :=
  if isBlank userInstruction then Some currentData
  else
    match answer with
    | Rejected => None
    | NoText => Some currentData
    | Parsed rawData =>
      Some (imap
              (λ i item,
                 Entry.mk (orString (id item) (js "refined-" ++ nonce i))
                          (orString (bankName item) (js "Other"))
                          (orString (category item) (js "Manual Category"))
                          (orZero (percentage item))
                          (Some (js "Refined by user")))
              rawData)
    end.

(** [parseUserContext]: failures are caught and give no entries. *)
Definition parseUserContext (text : jsstring) (answer : response)
           (nonce : nat → jsstring) : list Entry.t :=
  if isBlank text then []
  else
    match answer with
    | Rejected => []
    | NoText => []
    | Parsed rawData =>
      imap
        (λ i item,
           Entry.mk (js "context-" ++ nonce i)
                    (orString (bankName item) (js "Other"))
                    (orString (category item) (js "Manual Category"))
                    (orZero (percentage item))
                    (Some (js "Added via comment")))
        rawData
    end.

(** [parseCashbackScreenshot]; reading the file is part of the call that
    may fail. [None] is a rejected promise. *)
Definition parseCashbackScreenshot (answer : response) (nonce : nat → jsstring)
  : option (list Entry.t) :=
  match answer with
  | Rejected => None
  | NoText => Some []
  | Parsed rawData =>
    Some (imap
            (λ i item,
               Entry.mk (nonce i)
                        (orString (bankName item) (js "Other"))
                        (orString (category item) (js "Unknown"))
                        (orZero (percentage item))
                        None)
            rawData)
  end.

End Service.

(** ** The application state and its handlers ([App.tsx])

    A handler is a function from the state, its argument and the answers of
    the service to the next state; handlers run one at a time. *)

Module App.

Definition DEFAULT_CONFIGS : bankConfigs_t :=
  [ (js "Sber", BankConfig.mk true 5 (js "text-green-400 border-green-500/30"));
    (js "T-Bank", BankConfig.mk true 4 (js "text-yellow-400 border-yellow-500/30"));
    (js "Alfa", BankConfig.mk true 5 (js "text-red-400 border-red-500/30"));
    (js "VTB", BankConfig.mk true 4 (js "text-blue-400 border-blue-500/30"));
    (js "Yandex", BankConfig.mk true 5 (js "text-amber-400 border-amber-500/30")) ].

(** [toggleBank]: [{ ...prev, [bank]: { ...prev[bank], enabled:
    !prev[bank].enabled } }]. [None] is the TypeError raised by
    [prev[bank].enabled] when [bank] is not a key. *)
Definition toggleBank (prev : bankConfigs_t) (bank : jsstring)
  : option bankConfigs_t :=
  match configOf prev bank with
  | Some c =>
    Some (OMap.set bank
            (BankConfig.mk (negb (BankConfig.enabled c))
                           (BankConfig.limit c) (BankConfig.color c))
            prev)
  | None => None
  end.

(** [updateLimit]: the state changes only when [parseInt] yields a number
    that is not negative. For a [bank] that is not a key the source would
    store an object with no [enabled] and no [color], which is no
    [BankConfig]; the embedding stops there ([None]). *)
Definition updateLimit (prev : bankConfigs_t) (bank : jsstring)
           (newLimit : jsstring) : option bankConfigs_t :=
  match JsGlobal.parseInt newLimit with
  | Some num =>
    if 0 <=? num then
      match configOf prev bank with
      | Some c =>
        Some (OMap.set bank
                (BankConfig.mk (BankConfig.enabled c) num (BankConfig.color c))
                prev)
      | None => None
      end
    else Some prev
  | None => Some prev
  end.

(** [interface ProcessingStatus] *)
Record ProcessingStatus := mkStatus {
  total : nat;
  processed : nat;
  isProcessing : bool;
  error : option jsstring
}.

(** The [useState] cells of [App]. *)
Record state := mkState {
  data : list Entry.t;
  status : ProcessingStatus;
  bankConfigs : bankConfigs_t;
  userComment : jsstring;
  refinementComment : jsstring;
  showSettings : bool;
  isRefining : bool
}.

(** The answers the service gets during one run of a handler. *)
Record answers := mkAnswers {
  context : Service.response;
  contextNonce : nat → jsstring;
  screenshot : nat → Service.response;
  screenshotNonce : nat → nat → jsstring;
  refinement : Service.response;
  refinementNonce : nat → jsstring
}.

Definition fileError (file : Upload.File) : jsstring :=
  js "Ошибка при обработке файла " ++ Upload.name file
    ++ js ". Попробуйте еще раз.".

(** The [for] loop of [handleFilesSelected], from file index [i] on. *)
Fixpoint processFiles (env : answers) (i : nat) (files : list Upload.File)
         (newEntries : list Entry.t) (st : ProcessingStatus)
  : list Entry.t * ProcessingStatus :=
  match files with
  | [] => (newEntries, st)
  | file :: rest =>
    match Service.parseCashbackScreenshot
            (screenshot env i) (screenshotNonce env i) with
    | Some entries =>
      processFiles env (S i) rest (newEntries ++ entries)
        (mkStatus (total st) (S (processed st)) (isProcessing st) (error st))
    | None =>
      processFiles env (S i) rest newEntries
        (mkStatus (total st) (processed st) (isProcessing st)
                  (Some (fileError file)))
    end
  end.

Definition handleFilesSelected (env : answers) (st : state)
           (files : list Upload.File) : state :=
  let status0 := mkStatus (length files) 0 true None in
  let newEntries : list Entry.t := [] in
  let newEntries :=
    if negb (Service.isBlank (userComment st))
    then newEntries
           ++ Service.parseUserContext (userComment st) (context env)
                (contextNonce env)
    else newEntries in
  let '(newEntries, status1) := processFiles env 0 files newEntries status0 in
  mkState (data st ++ newEntries)
          (mkStatus (total status1) (processed status1) false (error status1))
          (bankConfigs st) (userComment st) (refinementComment st)
          (showSettings st) (isRefining st).

Definition handleRefineData (env : answers) (st : state) : state :=
  if Service.isBlank (refinementComment st)
     || bool_decide (length (data st) = 0%nat)
  then st
  else
    match Service.refineDataWithContext (data st) (refinementComment st)
            (refinement env) (refinementNonce env) with
    | Some updatedData =>
      mkState updatedData (status st) (bankConfigs st) (userComment st) []
              (showSettings st) false
    | None =>
      mkState (data st) (status st) (bankConfigs st) (userComment st)
              (refinementComment st) (showSettings st) false
    end.

(** [handleClearData]; [confirmed] is the answer to the [confirm]
    dialogue. *)
Definition handleClearData (st : state) (confirmed : bool) : state :=
  if confirmed
  then mkState [] (status st) (bankConfigs st) (userComment st)
               (refinementComment st) (showSettings st) (isRefining st)
  else st.

(** The two settings actions of the configuration panel. *)
Inductive action :=
| Toggle (bank : jsstring)
| SetLimit (bank : jsstring) (newLimit : jsstring).

Definition perform (cfg : bankConfigs_t) (a : action) : option bankConfigs_t :=
  match a with
  | Toggle bank => toggleBank cfg bank
  | SetLimit bank newLimit => updateLimit cfg bank newLimit
  end.

(** The configurations the panel can reach from [DEFAULT_CONFIGS]. *)
Inductive reachable : bankConfigs_t → Prop :=
| reachable_init : reachable DEFAULT_CONFIGS
| reachable_step cfg a cfg' :
    reachable cfg → perform cfg a = Some cfg' → reachable cfg'.

(** The results of the extraction calls for the files at the indices
    [i], ..., [i + n - 1], and the entries read from the comment. *)
Definition fileResults (env : answers) (i n : nat)
  : list (option (list Entry.t)) :=
  List.map
    (λ j, Service.parseCashbackScreenshot (screenshot env j) (screenshotNonce env j))
    (seq i n).

Definition contextEntries (env : answers) (st : state) : list Entry.t :=
  if negb (Service.isBlank (userComment st))
  then Service.parseUserContext (userComment st) (context env) (contextNonce env)
  else [].

End App.

Module AppExamples.

Definition shot : Upload.File := Upload.mkFile (js "sber.png") (js "image/png").
Definition scan : Upload.File := Upload.mkFile (js "alfa.jpg") (js "image/jpeg").

Definition taxiItem : Service.item :=
  Service.mkItem None (Some (js "Sber")) (Some (js "Такси")) (Some 10).

(** An item with no bank, an empty category and no percentage. *)
Definition bareItem : Service.item :=
  Service.mkItem None None (Some []) None.

(** The comment yields one entry, the first file yields one, every other
    call fails. *)
Definition env : App.answers :=
  App.mkAnswers
    (Service.Parsed [ taxiItem ]) (λ _, js "1700000000000-abc")
    (λ i, match i with O => Service.Parsed [ bareItem ] | _ => Service.Rejected end)
    (λ _ _, js "1700000000001-def")
    Service.Rejected (λ _, js "1700000000002-ghi").

Definition commented : App.state :=
  App.mkState [ Examples.entry 1 (js "VTB") (js "Кафе") 3 ]
              (App.mkStatus 0 0 false None) App.DEFAULT_CONFIGS
              (js "У Сбера такси 10%") (js "Удали ВТБ") true false.

End AppExamples.

(** ** Reading the tabular export back *)

(** [s.split(sep)] for a separator of one code unit; the way a spread-sheet
    cuts pasted text into lines and cells. *)
Fixpoint splitOn (sep : N) (s : jsstring) : list jsstring :=
  match s with
  | [] => [ [] ]
  | c :: s' =>
    if (c =? sep)%N then [] :: splitOn sep s'
    else
      match splitOn sep s' with
      | [] => [ [ c ] ]
      | p :: ps => (c :: p) :: ps
      end
  end.

(** A text with no tab and no line feed in it. *)
Definition plain (s : jsstring) : Prop := (9%N ∉ s) ∧ (10%N ∉ s).

#[global] Instance plain_dec s : Decision (plain s).
Proof. unfold plain. apply _. Defined.

(** ** Decimal digits *)



(** * Properties *)

(** ** The ordered map *)

Module OMapFacts.
Section WithValue.
Context {V : Type}.
Implicit Types (m : list (jsstring * V)) (k : jsstring) (v : V).

Lemma get_set_eq m k v : OMap.get k (OMap.set k v m) = Some v.
Proof.
  induction m as [|[k' v'] m IH]; simpl.
  - by rewrite decide_True.
  - destruct (decide (k' = k)) as [->|Hne]; simpl.
    + by rewrite decide_True.
    + by rewrite decide_False.
Qed.

Lemma get_set_ne m k k' v :
  k ≠ k' → OMap.get k' (OMap.set k v m) = OMap.get k' m.
Proof.
  intros Hne. induction m as [|[k0 v0] m IH]; simpl.
  - by rewrite decide_False.
  - destruct (decide (k0 = k)) as [->|Hk0]; simpl.
    + by rewrite !decide_False.
    + by rewrite IH.
Qed.

Lemma get_None m k : OMap.get k m = None ↔ k ∉ OMap.keys m.
Proof.
  induction m as [|[k0 v0] m IH]; simpl.
  - split; [intros _; apply not_elem_of_nil | done].
  - rewrite not_elem_of_cons. destruct (decide (k0 = k)) as [->|Hk0].
    + split; [done | intros [? _]; done].
    + rewrite IH. intuition congruence.
Qed.

Lemma get_Some_elem_of m k v : OMap.get k m = Some v → (k, v) ∈ m.
Proof.
  induction m as [|[k0 v0] m IH]; simpl; [done|].
  destruct (decide (k0 = k)) as [->|Hk0].
  - intros [= ->]. apply list_elem_of_here.
  - intros H. apply list_elem_of_further. auto.
Qed.

Lemma keys_set_present m k v :
  k ∈ OMap.keys m → OMap.keys (OMap.set k v m) = OMap.keys m.
Proof.
  induction m as [|[k0 v0] m IH]; simpl.
  - intros H. by apply elem_of_nil in H.
  - destruct (decide (k0 = k)) as [->|Hk0]; simpl; [done|].
    intros [?|Hin]%elem_of_cons; [congruence|]. by rewrite IH.
Qed.

Lemma keys_set_absent m k v :
  k ∉ OMap.keys m → OMap.keys (OMap.set k v m) = OMap.keys m ++ [k].
Proof.
  induction m as [|[k0 v0] m IH]; simpl; [done|].
  intros [Hne Hnin]%not_elem_of_cons.
  rewrite decide_False by done. simpl. by rewrite IH.
Qed.

Lemma keys_set_NoDup m k v :
  NoDup (OMap.keys m) → NoDup (OMap.keys (OMap.set k v m)).
Proof.
  intros Hnd. destruct (decide (k ∈ OMap.keys m)) as [Hin|Hnin].
  - by rewrite keys_set_present.
  - rewrite keys_set_absent by done.
    apply NoDup_app. split_and!; [done| |apply NoDup_singleton].
    intros x Hx ->%list_elem_of_singleton. done.
Qed.

(** Every binding of an updated map is the new one or an old one. *)
Lemma elem_of_set m k v k' v' :
  (k', v') ∈ OMap.set k v m → (k' = k ∧ v' = v) ∨ (k', v') ∈ m.
Proof.
  induction m as [|[k0 v0] m IH]; simpl.
  - intros [= -> ->]%list_elem_of_singleton. by left.
  - destruct (decide (k0 = k)) as [->|Hk0].
    + intros [[= -> ->]|Hin]%elem_of_cons; [by left|].
      right. by apply list_elem_of_further.
    + intros [[= -> ->]|Hin]%elem_of_cons.
      * right. apply list_elem_of_here.
      * destruct (IH Hin) as [?|?]; [by left|].
        right. by apply list_elem_of_further.
Qed.

End WithValue.
End OMapFacts.

(** ** De-duplication *)

Section DedupFacts.

Variable toLowerCase : jsstring → jsstring.

Lemma storedKey_stored e :
  storedKey toLowerCase (stored e) = key toLowerCase e.
Proof. reflexivity. Qed.

Lemma storedPair_stored e :
  storedPair toLowerCase (stored e) = pairKey toLowerCase e.
Proof. reflexivity. Qed.

Lemma uniqueEntries_snoc data x :
  uniqueEntries toLowerCase (data ++ [x])
  = dedupStep toLowerCase (uniqueEntries toLowerCase data) x.
Proof. unfold uniqueEntries. by rewrite fold_left_app. Qed.

(** A step either leaves the map alone or binds the entry's key to its
    stored form. *)
Lemma dedupStep_cases m x :
  dedupStep toLowerCase m x = m
  ∨ dedupStep toLowerCase m x
    = OMap.set (key toLowerCase x) (stored x) m.
Proof.
  unfold dedupStep. destruct (OMap.get _ m); [|by right].
  destruct (_ >? _); [by right | by left].
Qed.

Lemma uniqueEntries_keys_NoDup data :
  NoDup (OMap.keys (uniqueEntries toLowerCase data)).
Proof.
  induction data as [|x data IH] using rev_ind.
  - apply NoDup_nil_2.
  - rewrite uniqueEntries_snoc.
    destruct (dedupStep_cases (uniqueEntries toLowerCase data) x) as [->| ->];
      [done|]. by apply OMapFacts.keys_set_NoDup.
Qed.

(** Every binding is the stored form of an input entry, filed under that
    entry's key. *)
Lemma uniqueEntries_bindings data k o :
  (k, o) ∈ uniqueEntries toLowerCase data →
  ∃ w, w ∈ data ∧ o = stored w ∧ k = key toLowerCase w.
Proof.
  revert k o. induction data as [|x data IH] using rev_ind; intros k o.
  - intros H. by apply elem_of_nil in H.
  - rewrite uniqueEntries_snoc.
    destruct (dedupStep_cases (uniqueEntries toLowerCase data) x) as [->| ->].
    + intros (w & ? & ? & ?)%IH. exists w. set_solver.
    + intros [[-> ->]|(w & ? & ? & ?)%IH]%OMapFacts.elem_of_set.
      * exists x. set_solver.
      * exists w. set_solver.
Qed.

Lemma uniqueEntries_storedKey data k o :
  (k, o) ∈ uniqueEntries toLowerCase data → storedKey toLowerCase o = k.
Proof.
  intros (w & _ & -> & ->)%uniqueEntries_bindings. apply storedKey_stored.
Qed.



Lemma cleanData_storedKey_NoDup data :
  NoDup (List.map (storedKey toLowerCase) (cleanData toLowerCase data)).
Proof.
  pose proof (uniqueEntries_keys_NoDup data) as Hnd.
  unfold cleanData, OMap.values, OMap.keys in *.
  rewrite List.map_map.
  erewrite List.map_ext_in; [exact Hnd|].
  intros [k o] Hin%list_elem_of_In. simpl.
  by apply uniqueEntries_storedKey in Hin.
Qed.

Lemma cleanData_origin data o :
  o ∈ cleanData toLowerCase data → ∃ w, w ∈ data ∧ o = stored w.
Proof.
  unfold cleanData, OMap.values.
  intros ([k o'] & -> & Hin)%list_elem_of_fmap.
  apply uniqueEntries_bindings in Hin as (w & ? & ? & ?). eauto.
Qed.

End DedupFacts.

(** ** Bank names and the joined key *)

(** The sequential tests of [normalizeBank] amount to a first-match scan
    of the alias table; an unmatched name is returned as it is. *)
Lemma normalizeBank_firstAlias b :
  normalizeBank b = default b (firstAlias aliasTable b).
Proof.
  unfold normalizeBank, aliasTable, firstAlias. cbv zeta.
  destruct (JsString.includes b (js "Tinkoff")); [reflexivity|].
  destruct (JsString.includes b (js "Сбер")); [reflexivity|].
  destruct (JsString.includes b (js "Альфа")); [reflexivity|].
  destruct (JsString.includes b (js "ВТБ")); [reflexivity|].
  destruct (JsString.includes b (js "Яндекс")); reflexivity.
Qed.

Lemma firstAlias_tag table b t :
  firstAlias table b = Some t → t ∈ List.map snd table.
Proof.
  induction table as [|[pat tag] table IH]; simpl; [done|].
  destruct (JsString.includes b pat).
  - intros [= ->]. apply list_elem_of_here.
  - intros H. apply list_elem_of_further. auto.
Qed.

Lemma firstAlias_None table b :
  firstAlias table b = None
  ↔ ∀ pat, pat ∈ List.map fst table → JsString.includes b pat = false.
Proof.
  induction table as [|[pat tag] table IH]; simpl.
  - split; [|done]. intros _ pat H. by apply elem_of_nil in H.
  - destruct (JsString.includes b pat) eqn:Hinc.
    + split; [done|]. intros H. specialize (H pat (list_elem_of_here _ _)).
      congruence.
    + rewrite IH. split.
      * intros H p [->|Hp]%elem_of_cons; auto.
      * intros H p Hp. apply H. by apply list_elem_of_further.
Qed.

Lemma canonicalTags_barFree t : t ∈ canonicalTags → barFree t.
Proof.
  revert t. apply Forall_forall.
  apply (bool_decide_unpack _). vm_compute. exact I.
Qed.

Lemma normalizeBank_barFree b : barFree b → barFree (normalizeBank b).
Proof.
  intros Hb. rewrite normalizeBank_firstAlias.
  destruct (firstAlias aliasTable b) as [t|] eqn:Ht; simpl; [|done].
  apply canonicalTags_barFree. by apply firstAlias_tag in Ht.
Qed.

(** A bar-free left part is recovered from the joined string. *)
Lemma joined_inj (b1 b2 c1 c2 : jsstring) :
  barFree b1 → barFree b2 →
  b1 ++ bar ++ c1 = b2 ++ bar ++ c2 → b1 = b2 ∧ c1 = c2.
Proof.
  change bar with [124%N]. unfold barFree.
  revert b2. induction b1 as [|a b1 IH]; intros [|a' b2]; simpl.
  - intros _ _ [= ->]. done.
  - intros _ Hb2 [= <- _]. destruct Hb2. apply list_elem_of_here.
  - intros Hb1 _ [= -> _]. destruct Hb1. apply list_elem_of_here.
  - intros [? Hb1]%not_elem_of_cons [? Hb2]%not_elem_of_cons [= -> Heq].
    destruct (IH b2 Hb1 Hb2 Heq) as [-> ->]. done.
Qed.

Section KeyFacts.

Variable toLowerCase : jsstring → jsstring.



End KeyFacts.

(** ** Claims about the Normalizer and the Deduplicator *)

(** C4, counterexample. A bank name that contains none of the five aliases,
    such as "Газпромбанк", is not mapped to "Other": it stays as it is. *)
Lemma normalizeBank_unmatched_not_Other :
  (∀ pat, pat ∈ List.map fst aliasTable →
          JsString.includes (js "Газпромбанк") pat = false)
  ∧ normalizeBank (js "Газпромбанк") ≠ js "Other".
Proof.
  split.
  - apply Forall_forall. apply (bool_decide_unpack _). vm_compute. exact I.
  - vm_compute. discriminate.
Qed.

(** C4, amended. A bank name that contains none of the five aliases is left
    unchanged by the Normalizer, and every normalised bank name is one of
    T-Bank, Sber, Alfa, VTB, Yandex or the raw bank name itself. *)
Theorem normalizeBank_unmatched_unchanged (bankName : jsstring) :
  ((∀ pat, pat ∈ List.map fst aliasTable →
           JsString.includes bankName pat = false) →
   normalizeBank bankName = bankName)
  ∧ normalizeBank bankName ∈ canonicalTags ++ [bankName].
Proof.
  rewrite normalizeBank_firstAlias. split.
  - intros Hnone%firstAlias_None. by rewrite Hnone.
  - apply elem_of_app.
    destruct (firstAlias aliasTable bankName) as [t|] eqn:Ht.
    + left. exact (firstAlias_tag _ _ _ Ht).
    + right. apply list_elem_of_here.
Qed.

Lemma normalizeBank_unmatched_unchanged_witness :
  normalizeBank (js "Газпромбанк") = js "Газпромбанк".
Proof.
  apply (proj1 (normalizeBank_unmatched_unchanged (js "Газпромбанк"))).
  apply Forall_forall. apply (bool_decide_unpack _). vm_compute. exact I.
Defined.




(** ** Sorting, slicing and sets of strings *)

Module JsArrayFacts.
Section Generic.
Context {A : Type}.
Implicit Types (l : list A) (before : A → A → bool).

Lemma insertBy_Permutation before x l :
  JsArray.insertBy before x l ≡ₚ x :: l.
Proof.
  induction l as [|y l IH]; simpl; [done|].
  destruct (before y x); [|done].
  rewrite IH. apply Permutation_swap.
Qed.

Lemma sortBy_Permutation before l : JsArray.sortBy before l ≡ₚ l.
Proof.
  induction l as [|x l IH]; simpl; [done|].
  by rewrite insertBy_Permutation, IH.
Qed.

Lemma length_slice0 l (n : Z) :
  0 ≤ n →
  Z.of_nat (length (JsArray.slice0 l n)) = Z.min n (Z.of_nat (length l)).
Proof.
  intros Hn. unfold JsArray.slice0.
  destruct (Z.ltb_spec n 0); [lia|]. rewrite length_take. lia.
Qed.

Lemma slice0_sublist l (n : Z) : JsArray.slice0 l n `sublist_of` l.
Proof. apply sublist_take. Qed.

Lemma elem_of_slice0 l (n : Z) x : x ∈ JsArray.slice0 l n → x ∈ l.
Proof. apply subseteq_take. Qed.
End Generic.

Lemma elem_of_fromSet_gen (l acc : list jsstring) x :
  x ∈ fold_left (λ acc x, if decide (x ∈ acc) then acc else acc ++ [x]) l acc
  ↔ x ∈ acc ∨ x ∈ l.
Proof.
  revert acc. induction l as [|y l IH]; intros acc; simpl.
  - rewrite elem_of_nil. tauto.
  - rewrite IH, elem_of_cons. destruct (decide (y ∈ acc)) as [Hy|Hy].
    + split; [tauto|]. intros [?|[->|?]]; tauto.
    + rewrite elem_of_app, list_elem_of_singleton. tauto.
Qed.

Lemma elem_of_fromSet l x : x ∈ JsArray.fromSet l ↔ x ∈ l.
Proof.
  unfold JsArray.fromSet. rewrite elem_of_fromSet_gen, elem_of_nil. tauto.
Qed.

Lemma elem_of_sortStrings l x : x ∈ JsArray.sortStrings l ↔ x ∈ l.
Proof. unfold JsArray.sortStrings. by rewrite sortBy_Permutation. Qed.
End JsArrayFacts.

(** ** Winners *)

Lemma mathMax_ge_init p ps : p ≤ mathMax p ps.
Proof.
  unfold mathMax. revert p. induction ps as [|a ps IH]; intros p; simpl; [lia|].
  specialize (IH (Z.max p a)). lia.
Qed.

Lemma mathMax_upper p ps q : q ∈ p :: ps → q ≤ mathMax p ps.
Proof.
  revert p. induction ps as [|a ps IH]; intros p.
  - intros ->%list_elem_of_singleton. apply mathMax_ge_init.
  - intros [->|[->|Hq]%elem_of_cons]%elem_of_cons.
    + apply mathMax_ge_init.
    + change (mathMax p (a :: ps)) with (mathMax (Z.max p a) ps).
      pose proof (mathMax_ge_init (Z.max p a) ps). lia.
    + change (mathMax p (a :: ps)) with (mathMax (Z.max p a) ps).
      apply IH. by apply list_elem_of_further.
Qed.

Lemma maxActivePercent_upper row c q :
  c ∈ Row.values row → Cell.isSelected c = true → Cell.percentage c = Some q →
  q ≤ maxActivePercent row.
Proof.
  intros Hc Hsel Hq.
  assert (Hin : q ∈ omap Cell.percentage (activeValues row)).
  { apply list_elem_of_omap. exists c. split; [|done].
    apply list_elem_of_In, List.filter_In. split; [by apply list_elem_of_In|].
    unfold isActive. rewrite Hsel, Hq. done. }
  unfold maxActivePercent.
  destruct (omap Cell.percentage (activeValues row)) as [|p ps].
  - by apply elem_of_nil in Hin.
  - by apply mathMax_upper.
Qed.

Lemma elem_of_winners row w :
  w ∈ winners row
  ↔ w ∈ Row.values row
    ∧ Cell.isSelected w = true
    ∧ Cell.percentage w = Some (maxActivePercent row).
Proof.
  unfold winners, isWinner.
  rewrite list_elem_of_In, List.filter_In, <- list_elem_of_In.
  rewrite andb_true_iff, bool_decide_eq_true. tauto.
Qed.

(** C5. In every row: when no cell is selected the winner set is empty;
    every winner is a selected cell of the row whose percentage is the
    greatest percentage among the row's selected cells; and a cell that is
    not selected is never a winner. *)
Theorem winner_invariant (row : Row.t) :
  ((∀ c, c ∈ Row.values row → Cell.isSelected c = false) → winners row = [])
  ∧ (∀ w, w ∈ winners row →
          w ∈ Row.values row
          ∧ Cell.isSelected w = true
          ∧ ∃ p, Cell.percentage w = Some p
                 ∧ ∀ c q, c ∈ Row.values row → Cell.isSelected c = true →
                          Cell.percentage c = Some q → q ≤ p)
  ∧ (∀ c, Cell.isSelected c = false →
          isWinner row c = false ∧ c ∉ winners row).
Proof.
  split_and!.
  - intros Hnone. destruct (winners row) as [|w ws] eqn:Hw; [done|].
    assert (Hin : w ∈ winners row) by (rewrite Hw; apply list_elem_of_here).
    apply elem_of_winners in Hin as (Hin & Hsel & _).
    rewrite (Hnone w Hin) in Hsel. discriminate.
  - intros w (Hin & Hsel & Hp)%elem_of_winners. split_and!; [done..|].
    exists (maxActivePercent row). split; [done|].
    intros c q. apply maxActivePercent_upper.
  - intros c Hsel. split.
    + unfold isWinner. by rewrite Hsel.
    + intros (_ & Hsel' & _)%elem_of_winners. congruence.
Qed.

Lemma winner_invariant_witness :
  winners Examples.idleRow = []
  ∧ (Examples.sber7 ∈ Row.values Examples.tiedRow
     ∧ Cell.isSelected Examples.sber7 = true
     ∧ ∃ p, Cell.percentage Examples.sber7 = Some p
            ∧ ∀ c q, c ∈ Row.values Examples.tiedRow →
                     Cell.isSelected c = true →
                     Cell.percentage c = Some q → q ≤ p)
  ∧ (isWinner Examples.tiedRow Examples.vtb9 = false
     ∧ Examples.vtb9 ∉ winners Examples.tiedRow).
Proof.
  split; [|split].
  - apply (proj1 (winner_invariant Examples.idleRow)).
    apply Forall_forall. apply (bool_decide_unpack _). vm_compute. exact I.
  - apply (proj1 (proj2 (winner_invariant Examples.tiedRow))).
    apply (bool_decide_unpack _). vm_compute. exact I.
  - apply (proj2 (proj2 (winner_invariant Examples.tiedRow))). reflexivity.
Defined.

Lemma mathMax_attained p ps : mathMax p ps ∈ p :: ps.
Proof.
  revert p. induction ps as [|a ps IH]; intros p.
  - apply list_elem_of_here.
  - change (mathMax p (a :: ps)) with (mathMax (Z.max p a) ps).
    specialize (IH (Z.max p a)).
    apply elem_of_cons in IH as [Heq|Hin].
    + rewrite Heq. destruct (Z.max_spec p a) as [[_ ->]|[_ ->]].
      * apply list_elem_of_further, list_elem_of_here.
      * apply list_elem_of_here.
    + by do 2 apply list_elem_of_further.
Qed.


(** ** Exporters *)




(** ** Selection and matrix construction *)

Lemma elem_of_activeBanks cfg b :
  b ∈ activeBanks cfg ↔ isEnabled cfg b = true.
Proof.
  unfold activeBanks.
  rewrite list_elem_of_In, List.filter_In, <- list_elem_of_In.
  split; [tauto|]. intros Hen. split; [|done].
  unfold isEnabled, configOf in Hen.
  destruct (decide (b ∈ OMap.keys cfg)) as [|Hnin]; [done|].
  apply OMapFacts.get_None in Hnin. by rewrite Hnin in Hen.
Qed.

Lemma elem_of_offers clean b e :
  e ∈ offers clean b ↔ e ∈ clean ∧ Entry.bankName e = b.
Proof.
  unfold offers.
  rewrite list_elem_of_In, List.filter_In, <- list_elem_of_In.
  by rewrite bool_decide_eq_true.
Qed.

Lemma bankEntries_Permutation clean b :
  bankEntries clean b ≡ₚ offers clean b.
Proof. apply JsArrayFacts.sortBy_Permutation. Qed.

Lemma elem_of_topN cfg clean b e :
  e ∈ topN cfg clean b → e ∈ clean ∧ Entry.bankName e = b.
Proof.
  intros He%JsArrayFacts.elem_of_slice0.
  rewrite bankEntries_Permutation in He. by apply elem_of_offers.
Qed.

Lemma elem_of_allCategories cfg clean cat :
  cat ∈ allCategories cfg clean
  ↔ ∃ e, e ∈ clean ∧ isEnabled cfg (Entry.bankName e) = true
         ∧ Entry.category e = cat.
Proof.
  unfold allCategories, relevantData, JsArray.includes.
  rewrite JsArrayFacts.elem_of_sortStrings, JsArrayFacts.elem_of_fromSet.
  rewrite list_elem_of_In, List.in_map_iff. split.
  - intros (e & <- & [He Hact]%List.filter_In). exists e.
    apply list_elem_of_In in He. apply bool_decide_eq_true in Hact.
    by apply elem_of_activeBanks in Hact.
  - intros (e & He & Hen & <-). exists e. split; [done|].
    apply List.filter_In. split; [by apply list_elem_of_In|].
    apply bool_decide_eq_true. by apply elem_of_activeBanks.
Qed.

Section SelectionFacts.

Variable toLowerCase : jsstring → jsstring.

Lemma elem_of_selectStep cfg clean sel b k :
  k ∈ selectStep toLowerCase cfg clean sel b
  ↔ k ∈ sel
    ∨ ∃ e, e ∈ topN cfg clean b
           ∧ k = selectionKey toLowerCase b (Entry.category e).
Proof.
  unfold selectStep. generalize (topN cfg clean b) as l.
  intros l. revert sel. induction l as [|x l IH]; intros sel; simpl.
  - split; [by left|]. intros [?|(e & He & _)]; [done|].
    by apply elem_of_nil in He.
  - rewrite IH, elem_of_union, elem_of_singleton. split.
    + intros [[?| ->]|(e & He & ->)]; [by left|right..].
      * exists x. split; [apply list_elem_of_here|done].
      * exists e. split; [by apply list_elem_of_further|done].
    + intros [?|(e & [->|He]%elem_of_cons & ->)].
      * by left; left.
      * by left; right.
      * right. by exists e.
Qed.

Lemma elem_of_selections_gen cfg clean banks sel k :
  k ∈ fold_left (selectStep toLowerCase cfg clean) banks sel
  ↔ k ∈ sel
    ∨ ∃ b e, b ∈ banks ∧ e ∈ topN cfg clean b
             ∧ k = selectionKey toLowerCase b (Entry.category e).
Proof.
  revert sel. induction banks as [|b banks IH]; intros sel; simpl.
  - split; [by left|]. intros [?|(b & e & Hb & _)]; [done|].
    by apply elem_of_nil in Hb.
  - rewrite IH, elem_of_selectStep. split.
    + intros [[?|(e & He & ->)]|(b' & e & Hb' & He & ->)]; [by left|right..].
      * exists b, e. split_and!; [apply list_elem_of_here|done..].
      * exists b', e. split_and!; [by apply list_elem_of_further|done..].
    + intros [?|(b' & e & [->|Hb']%elem_of_cons & He & ->)].
      * by left; left.
      * left; right. by exists e.
      * right. by exists b', e.
Qed.

(** The selection set holds exactly the keys of the Top-N entries of the
    active banks. *)
Lemma elem_of_bankSelections cfg clean k :
  k ∈ bankSelections toLowerCase cfg clean
  ↔ ∃ b e, b ∈ activeBanks cfg ∧ e ∈ topN cfg clean b
           ∧ k = selectionKey toLowerCase b (Entry.category e).
Proof.
  unfold bankSelections. rewrite elem_of_selections_gen.
  split; [|by right]. intros [H|H]; [|done]. by apply elem_of_empty in H.
Qed.

Lemma elem_of_buildMatrix cfg clean row :
  row ∈ buildMatrix toLowerCase cfg clean
  ↔ ∃ cat,
      cat ∈ allCategories cfg clean
      ∧ row = Row.mk cat
                (List.map
                   (cellOf toLowerCase (matrixMap clean)
                           (bankSelections toLowerCase cfg clean) cat)
                   (activeBanks cfg)).
Proof.
  unfold buildMatrix. cbv zeta.
  rewrite list_elem_of_In, List.in_map_iff. split.
  - intros (cat & <- & Hcat%list_elem_of_In). by exists cat.
  - intros (cat & Hcat & ->). exists cat. by rewrite <- list_elem_of_In.
Qed.

Lemma row_banks cfg clean row :
  row ∈ buildMatrix toLowerCase cfg clean →
  List.map Cell.bank (Row.values row) = activeBanks cfg.
Proof.
  intros (cat & _ & ->)%elem_of_buildMatrix. simpl.
  rewrite List.map_map. apply List.map_id.
Qed.

End SelectionFacts.

(** C9. A bank that is not enabled is not a column of the matrix (the cells
    of every row are those of the enabled banks, in configuration order);
    every key of the selection set comes from an offer of another, enabled
    bank; and a category all of whose de-duplicated offers belong to banks
    that are not enabled is not a row of the matrix. *)
Theorem disabled_bank_excluded
        (toLowerCase : jsstring → jsstring) (data : list Entry.t)
        (bankConfigs : bankConfigs_t) (b : jsstring) :
  isEnabled bankConfigs b = false →
  (b ∉ targetBanks bankConfigs)
  ∧ (∀ row, row ∈ matrix toLowerCase data bankConfigs →
        List.map Cell.bank (Row.values row) = targetBanks bankConfigs)
  ∧ (∀ k, k ∈ bankSelections toLowerCase bankConfigs (cleanData toLowerCase data) →
        ∃ b' e,
          b' ≠ b ∧ isEnabled bankConfigs b' = true
          ∧ e ∈ cleanData toLowerCase data ∧ Entry.bankName e = b'
          ∧ k = selectionKey toLowerCase b' (Entry.category e))
  ∧ (∀ cat,
        (∀ e, e ∈ cleanData toLowerCase data → Entry.category e = cat →
              isEnabled bankConfigs (Entry.bankName e) = false) →
        cat ∉ List.map Row.name (matrix toLowerCase data bankConfigs)).
Proof.
  intros Hoff. unfold targetBanks, matrix. split_and!.
  - rewrite elem_of_activeBanks. intros Hon. congruence.
  - intros row. apply row_banks.
  - intros k (b' & e & Hb' & [He Hbank]%elem_of_topN & ->)%elem_of_bankSelections.
    apply elem_of_activeBanks in Hb'.
    exists b', e. split_and!; [congruence|done..].
  - intros cat Honly (row & -> & Hrow)%list_elem_of_fmap.
    apply elem_of_buildMatrix in Hrow as (cat & Hcat & ->). simpl in Honly.
    apply elem_of_allCategories in Hcat as (e & He & Hen & <-).
    specialize (Honly e He eq_refl). congruence.
Qed.

Lemma disabled_bank_excluded_witness :
  (js "Alfa" ∉ targetBanks Examples.mixedConfig)
  ∧ (js "Кафе"
       ∉ List.map Row.name
           (matrix Examples.lower Examples.mixedData Examples.mixedConfig)).
Proof.
  pose proof (disabled_bank_excluded Examples.lower Examples.mixedData
                Examples.mixedConfig (js "Alfa") eq_refl)
    as (Hcol & _ & _ & Hrows).
  split; [exact Hcol|]. apply Hrows.
  intros e He Hcat. vm_compute in He.
  repeat (apply elem_of_cons in He as [->|He]; [first [discriminate Hcat | reflexivity]|]).
  by apply elem_of_nil in He.
Defined.

(** ** Size of a bank's selection *)

Lemma NoDup_map_inj_on {A B : Type} (f : A → B) (l : list A) x y :
  NoDup (List.map f l) → x ∈ l → y ∈ l → f x = f y → x = y.
Proof.
  induction l as [|a l IH]; simpl.
  - intros _ Hx. by apply elem_of_nil in Hx.
  - intros [Hnin Hnd]%NoDup_cons [->|Hx]%elem_of_cons [->|Hy]%elem_of_cons Hf;
      [done| | |by apply IH].
    + destruct Hnin. rewrite Hf. apply list_elem_of_fmap. by exists y.
    + destruct Hnin. rewrite <- Hf. apply list_elem_of_fmap. by exists x.
Qed.

Lemma NoDup_List_filter {A : Type} (f : A → bool) (l : list A) :
  NoDup l → NoDup (List.filter f l).
Proof. rewrite !NoDup_ListNoDup. apply List.NoDup_filter. Qed.

Lemma length_filter_elem_of (l l' : list Entry.t) :
  NoDup l → NoDup l' → (∀ x, x ∈ l' → x ∈ l) →
  length (List.filter (λ x, bool_decide (x ∈ l')) l) = length l'.
Proof.
  intros Hl Hl' Hsub. apply Permutation_length, NoDup_Permutation; [|done|].
  - by apply NoDup_List_filter.
  - intros x. rewrite list_elem_of_In, List.filter_In, <- list_elem_of_In.
    rewrite bool_decide_eq_true. split; [tauto|]. intros Hx. split; auto.
Qed.

Section SelectionSize.

Variable toLowerCase : jsstring → jsstring.
Variable data : list Entry.t.
Variable bankConfigs : bankConfigs_t.

Hypothesis banks_barFree : Forall barFree (activeBanks bankConfigs).

Local Abbreviation clean := (cleanData toLowerCase data).

Lemma clean_NoDup : NoDup clean.
Proof.
  apply (NoDup_fmap_1 (storedKey toLowerCase)).
  apply cleanData_storedKey_NoDup.
Qed.

Lemma offers_NoDup b : NoDup (offers clean b).
Proof. apply NoDup_List_filter, clean_NoDup. Qed.

Lemma topN_NoDup b : NoDup (topN bankConfigs clean b).
Proof.
  eapply sublist_NoDup; [|apply JsArrayFacts.slice0_sublist].
  rewrite bankEntries_Permutation. apply offers_NoDup.
Qed.

(** An offer of an active bank carries the selection flag exactly when it
    is among that bank's own Top-N. *)
Lemma isSelectedOffer_topN b e :
  b ∈ activeBanks bankConfigs → e ∈ offers clean b →
  isSelectedOffer toLowerCase bankConfigs clean b e
  = bool_decide (e ∈ topN bankConfigs clean b).
Proof.
  intros Hb [He Hbank]%elem_of_offers. unfold isSelectedOffer.
  apply bool_decide_ext. rewrite elem_of_bankSelections. split.
  - intros (b' & e' & Hb' & He' & Hkey).
    rewrite Forall_forall in banks_barFree.
    apply joined_inj in Hkey as [<- Hcat]; [|by apply banks_barFree..].
    destruct (elem_of_topN _ _ _ _ He') as [Hin' Hbank'].
    assert (e = e') as ->; [|done].
    apply (NoDup_map_inj_on (storedKey toLowerCase) clean); [|done..|].
    + apply cleanData_storedKey_NoDup.
    + unfold storedKey, selectionKey. by rewrite Hbank, Hbank', Hcat.
  - intros Htop. by exists b, e.
Qed.

Lemma selectedCount_topN b :
  b ∈ activeBanks bankConfigs →
  selectedCount toLowerCase bankConfigs clean b
  = length (topN bankConfigs clean b).
Proof.
  intros Hb. unfold selectedCount.
  erewrite List.filter_ext_in.
  2:{ intros e He%list_elem_of_In. by apply isSelectedOffer_topN. }
  apply length_filter_elem_of; [apply offers_NoDup|apply topN_NoDup|].
  intros e He%elem_of_topN. by apply elem_of_offers.
Qed.

(** The selection-size rule holds with the limit the Selector actually
    uses, [limitOf], whenever that limit is not negative. *)
Lemma selectedCount_limitOf b :
  b ∈ activeBanks bankConfigs → 0 ≤ limitOf bankConfigs b →
  Z.of_nat (selectedCount toLowerCase bankConfigs clean b)
  = Z.min (limitOf bankConfigs b) (Z.of_nat (length (offers clean b))).
Proof.
  intros Hb Hlim. rewrite selectedCount_topN by done.
  unfold topN. rewrite JsArrayFacts.length_slice0 by done.
  by rewrite bankEntries_Permutation.
Qed.

(** For a positive configured limit, [limitOf] is that limit. *)
Lemma selectedCount_positive_limit b c :
  configOf bankConfigs b = Some c → BankConfig.enabled c = true →
  0 < BankConfig.limit c →
  Z.of_nat (selectedCount toLowerCase bankConfigs clean b)
  = Z.min (BankConfig.limit c) (Z.of_nat (length (offers clean b))).
Proof.
  intros Hc Hen Hpos.
  assert (Hlim : limitOf bankConfigs b = BankConfig.limit c).
  { unfold limitOf. rewrite Hc. destruct (Z.eqb_spec (BankConfig.limit c) 0); lia. }
  rewrite <- Hlim. apply selectedCount_limitOf; [|lia].
  apply elem_of_activeBanks. unfold isEnabled. by rewrite Hc.
Qed.

(** A configured limit of 0 is replaced by 5. *)
Lemma selectedCount_zero_limit b c :
  configOf bankConfigs b = Some c → BankConfig.enabled c = true →
  BankConfig.limit c = 0 →
  Z.of_nat (selectedCount toLowerCase bankConfigs clean b)
  = Z.min 5 (Z.of_nat (length (offers clean b))).
Proof.
  intros Hc Hen Hzero.
  assert (Hlim : limitOf bankConfigs b = 5).
  { unfold limitOf. by rewrite Hc, Hzero. }
  rewrite <- Hlim. apply selectedCount_limitOf; [|lia].
  apply elem_of_activeBanks. unfold isEnabled. by rewrite Hc.
Qed.

End SelectionSize.

(** The rule at work on the taxi input: both banks have limit 5 and one
    offer each, so each has min(5, 1) = 1 selected offer. *)
Example selectedCount_taxi_Sber :
  Z.of_nat
    (selectedCount Examples.lower Examples.taxiConfig
       (cleanData Examples.lower Examples.taxiData) (js "Sber"))
  = Z.min 5
      (Z.of_nat
         (length (offers (cleanData Examples.lower Examples.taxiData) (js "Sber")))).
Proof.
  apply (selectedCount_positive_limit Examples.lower Examples.taxiData
           Examples.taxiConfig) with (c := Examples.on 5).
  - apply (bool_decide_unpack _). vm_compute. exact I.
  - reflexivity.
  - reflexivity.
  - reflexivity.
Qed.

(** ** Dependence on the lower-casing function

    The pipeline applies [toLowerCase] only to the trimmed categories of the
    input, so two lower-casing functions that agree there produce the same
    de-duplicated list, the same selection set and the same matrix. *)

Lemma fold_left_ext_in {A B : Type} (g h : A → B → A) (l : list B) (a : A) :
  (∀ acc x, x ∈ l → g acc x = h acc x) → fold_left g l a = fold_left h l a.
Proof.
  revert a. induction l as [|x l IH]; intros a Hgh; simpl; [done|].
  rewrite Hgh by apply list_elem_of_here.
  apply IH. intros acc y Hy. apply Hgh. by apply list_elem_of_further.
Qed.

Section LowerCaseExt.

Variables toLowerCase toLowerCase' : jsstring → jsstring.
Variable data : list Entry.t.

Hypothesis agree :
  ∀ e, e ∈ data →
       toLowerCase (JsString.trim (Entry.category e))
       = toLowerCase' (JsString.trim (Entry.category e)).

Lemma cleanData_ext : cleanData toLowerCase data = cleanData toLowerCase' data.
Proof.
  unfold cleanData, uniqueEntries. f_equal.
  apply fold_left_ext_in. intros m x Hx.
  unfold dedupStep, key, normCat. by rewrite (agree x Hx).
Qed.

Lemma agree_clean o :
  o ∈ cleanData toLowerCase data →
  toLowerCase (Entry.category o) = toLowerCase' (Entry.category o).
Proof. intros (w & Hw & ->)%cleanData_origin. simpl. by apply agree. Qed.

Lemma bankSelections_ext cfg :
  bankSelections toLowerCase cfg (cleanData toLowerCase data)
  = bankSelections toLowerCase' cfg (cleanData toLowerCase' data).
Proof.
  rewrite <- cleanData_ext. unfold bankSelections.
  apply fold_left_ext_in. intros sel b _.
  unfold selectStep. apply fold_left_ext_in. intros sel' e [He _]%elem_of_topN.
  unfold selectionKey. by rewrite (agree_clean e He).
Qed.

Lemma matrix_ext cfg :
  matrix toLowerCase data cfg = matrix toLowerCase' data cfg.
Proof.
  unfold matrix, buildMatrix. cbv zeta.
  rewrite <- bankSelections_ext, <- cleanData_ext.
  apply List.map_ext_in. intros cat Hcat%list_elem_of_In. f_equal.
  apply elem_of_allCategories in Hcat as (e & He & _ & <-).
  apply List.map_ext. intros b.
  unfold cellOf, selectionKey. by rewrite (agree_clean e He).
Qed.

Lemma isSelectedOffer_ext cfg b o :
  o ∈ cleanData toLowerCase data →
  isSelectedOffer toLowerCase cfg (cleanData toLowerCase data) b o
  = isSelectedOffer toLowerCase' cfg (cleanData toLowerCase' data) b o.
Proof.
  intros Ho. unfold isSelectedOffer, selectionKey.
  by rewrite bankSelections_ext, (agree_clean o Ho).
Qed.

End LowerCaseExt.

Lemma taxi_agree toLowerCase :
  Examples.lowersTaxi toLowerCase →
  ∀ e, e ∈ Examples.taxiData →
       toLowerCase (JsString.trim (Entry.category e))
       = Examples.lower (JsString.trim (Entry.category e)).
Proof.
  intros [Hupper Hlower] e He. unfold Examples.taxiData in He.
  apply elem_of_cons in He as [->|He];
    [|apply elem_of_cons in He as [->|He];
      [|apply list_elem_of_singleton in He as ->]].
  - change (JsString.trim _) with (js "Такси"). by rewrite Hupper.
  - change (JsString.trim _) with (js "такси"). by rewrite Hlower.
  - change (JsString.trim _) with (js "Такси"). by rewrite Hupper.
Qed.

(** ** Worked examples *)

(** C6, counterexample. On the taxi input the matrix is not a single row:
    the two spellings of the category are two rows. *)
Lemma taxi_matrix_not_single_row :
  ¬ ∃ row, matrix Examples.lower Examples.taxiData Examples.taxiConfig = [row].
Proof. intros [row Hrow]. vm_compute in Hrow. discriminate Hrow. Qed.

(** C6, amended. On the taxi input with both banks enabled at limit 5 the
    de-duplicated list is exactly (Sber, "такси", 7), (T-Bank, "Такси", 6),
    both entries are selected, and the matrix has one row per spelling of
    the category: the row "Такси" with winner T-Bank at 6% and the row
    "такси" with winner Sber at 7%. *)
Theorem taxi_example (toLowerCase : jsstring → jsstring) :
  Examples.lowersTaxi toLowerCase →
  cleanData toLowerCase Examples.taxiData
  = [ Examples.entry 2 (js "Sber") (js "такси") 7;
      Examples.entry 3 (js "T-Bank") (js "Такси") 6 ]
  ∧ List.map
      (λ e, isSelectedOffer toLowerCase Examples.taxiConfig
              (cleanData toLowerCase Examples.taxiData) (Entry.bankName e) e)
      (cleanData toLowerCase Examples.taxiData)
    = [ true; true ]
  ∧ List.map Row.name (matrix toLowerCase Examples.taxiData Examples.taxiConfig)
    = [ js "Такси"; js "такси" ]
  ∧ List.map winners (matrix toLowerCase Examples.taxiData Examples.taxiConfig)
    = [ [ Cell.mk (js "T-Bank") (Some 6) true ];
        [ Cell.mk (js "Sber") (Some 7) true ] ].
Proof.
  intros Hlow. pose proof (taxi_agree toLowerCase Hlow) as Hagree.
  split_and!.
  - rewrite (cleanData_ext _ _ _ Hagree). vm_compute. reflexivity.
  - erewrite List.map_ext_in.
    2:{ intros o Ho%list_elem_of_In.
        apply (isSelectedOffer_ext _ _ _ Hagree _ _ _ Ho). }
    rewrite (cleanData_ext _ _ _ Hagree). vm_compute. reflexivity.
  - rewrite (matrix_ext _ _ _ Hagree). vm_compute. reflexivity.
  - rewrite (matrix_ext _ _ _ Hagree). vm_compute. reflexivity.
Qed.

Lemma taxi_example_witness :
  List.map Row.name
    (matrix Examples.lower Examples.taxiData Examples.taxiConfig)
  = [ js "Такси"; js "такси" ].
Proof.
  apply (taxi_example Examples.lower).
  split; vm_compute; reflexivity.
Defined.

(** C10. On the taxi input, where Sber and T-Bank offer the same category
    in different letter casing, the matrix has a cell that is flagged as
    selected but holds no percentage: the Sber cell of the row "Такси".
    Sber has no de-duplicated offer displayed as "Такси"; the flag comes
    from its offer "такси", whose lower-cased key the row's name shares. *)
Theorem selected_cell_without_offer (toLowerCase : jsstring → jsstring) :
  Examples.lowersTaxi toLowerCase →
  ∃ row cell,
    row ∈ matrix toLowerCase Examples.taxiData Examples.taxiConfig
    ∧ cell ∈ Row.values row
    ∧ Row.name row = js "Такси"
    ∧ Cell.bank cell = js "Sber"
    ∧ Cell.isSelected cell = true
    ∧ Cell.percentage cell = None
    ∧ List.filter
        (λ o, bool_decide (Entry.category o = js "Такси"))
        (offers (cleanData toLowerCase Examples.taxiData) (js "Sber"))
      = [].
Proof.
  intros Hlow. pose proof (taxi_agree toLowerCase Hlow) as Hagree.
  rewrite (matrix_ext _ _ _ Hagree), (cleanData_ext _ _ _ Hagree).
  exists (Row.mk (js "Такси")
            [ Cell.mk (js "Sber") None true;
              Cell.mk (js "T-Bank") (Some 6) true ]),
         (Cell.mk (js "Sber") None true).
  split_and!; try reflexivity.
  - apply (bool_decide_unpack _). vm_compute. exact I.
  - apply list_elem_of_here.
Qed.

Lemma selected_cell_without_offer_witness :
  ∃ row cell,
    row ∈ matrix Examples.lower Examples.taxiData Examples.taxiConfig
    ∧ cell ∈ Row.values row
    ∧ Row.name row = js "Такси"
    ∧ Cell.bank cell = js "Sber"
    ∧ Cell.isSelected cell = true
    ∧ Cell.percentage cell = None
    ∧ List.filter
        (λ o, bool_decide (Entry.category o = js "Такси"))
        (offers (cleanData Examples.lower Examples.taxiData) (js "Sber"))
      = [].
Proof.
  apply (selected_cell_without_offer Examples.lower).
  split; vm_compute; reflexivity.
Defined.

(** ** The limit 0 *)

(** C1, evaluation at the failing input. Sber is enabled with limit 0 and
    has one offer; the Selector replaces the limit by 5, so the offer's
    cell carries the selection flag. *)
Theorem zero_limit_still_selects :
  configOf Examples.zeroLimitConfig (js "Sber") = Some (Examples.on 0)
  ∧ limitOf Examples.zeroLimitConfig (js "Sber") = 5
  ∧ matrix Examples.lower Examples.zeroLimitData Examples.zeroLimitConfig
    = [ Row.mk (js "Такси") [ Cell.mk (js "Sber") (Some 5) true ] ].
Proof. split_and!; vm_compute; reflexivity. Qed.

(** C3, evaluation at the failing input. Sber is enabled with limit 0 and
    has six de-duplicated offers; five of them are selected, more than the
    limit and not min(0, 6). *)
Theorem selection_size_ignores_zero_limit :
  configOf Examples.zeroLimitConfig (js "Sber") = Some (Examples.on 0)
  ∧ length (offers (cleanData Examples.lower Examples.sixOffers) (js "Sber"))
    = 6%nat
  ∧ selectedCount Examples.lower Examples.zeroLimitConfig
      (cleanData Examples.lower Examples.sixOffers) (js "Sber")
    = 5%nat.
Proof. split_and!; vm_compute; reflexivity. Qed.

(** ** The tabular export *)

Lemma copyToClipboard_lines (m : list Row.t) (banks : list jsstring) :
  m ≠ [] →
  copyToClipboard m banks
  = JsString.join newline (exportHeader banks :: List.map exportRow m).
Proof. destruct m as [|row m]; [done|]. reflexivity. Qed.

(** The export cell is empty for an absent offer and for an offer of 0%,
    and "<percentage>%" otherwise. *)
Lemma exportCell_empty_iff (v : Cell.t) :
  exportCell v = []
  ↔ Cell.percentage v = None ∨ Cell.percentage v = Some 0.
Proof.
  unfold exportCell. destruct (Cell.percentage v) as [p|]; [|by split; [left|]].
  destruct (Z.eqb_spec p 0) as [->|Hp].
  - by split; [right|].
  - split.
    + intros [_ Habs]%app_eq_nil. discriminate Habs.
    + intros [?|[= ?]]; done.
Qed.

Lemma exportCell_nonzero (v : Cell.t) (p : Z) :
  Cell.percentage v = Some p → p ≠ 0 →
  exportCell v = JsString.ofNumber p ++ percentSign.
Proof.
  intros Hp Hnz. unfold exportCell. rewrite Hp.
  by destruct (Z.eqb_spec p 0).
Qed.

(** C7, evaluation at the failing input. Sber offers "Такси" at 0%: the
    matrix cell holds the percentage 0 and the table body prints it as
    "0%", but the tabular export leaves the cell empty. *)
Theorem export_blanks_zero_percent :
  matrix Examples.lower Examples.zeroPercentData Examples.sberOnly
  = [ Row.mk (js "Такси") [ Cell.mk (js "Sber") (Some 0) true ] ]
  ∧ displayCell (Cell.mk (js "Sber") (Some 0) true) = js "0%"
  ∧ exportCell (Cell.mk (js "Sber") (Some 0) true) = []
  ∧ copyToClipboard
      (matrix Examples.lower Examples.zeroPercentData Examples.sberOnly)
      (targetBanks Examples.sberOnly)
    = js "Категория" ++ tab ++ js "Sber" ++ newline ++ js "Такси" ++ tab.
Proof. split_and!; vm_compute; reflexivity. Qed.

(** * Further properties of the pipeline *)

(** ** Normalisation is idempotent *)

Lemma trimStart_fixed (s : jsstring) :
  match s with [] => True | c :: _ => JsString.isWhiteSpace c = false end →
  JsString.trimStart s = s.
Proof. destruct s as [|c s]; simpl; [done|]. by intros ->. Qed.

Lemma trimStart_head (s : jsstring) :
  match JsString.trimStart s with
  | [] => True
  | c :: _ => JsString.isWhiteSpace c = false
  end.
Proof.
  induction s as [|c s IH]; simpl; [done|].
  destruct (JsString.isWhiteSpace c) eqn:Hc; [done|]. simpl. done.
Qed.

Lemma trimStart_idem (s : jsstring) :
  JsString.trimStart (JsString.trimStart s) = JsString.trimStart s.
Proof. apply trimStart_fixed, trimStart_head. Qed.

Lemma trimStart_snoc (l : jsstring) (c : N) :
  JsString.isWhiteSpace c = false →
  JsString.trimStart (l ++ [c]) = JsString.trimStart l ++ [c].
Proof.
  intros Hc. induction l as [|a l IH]; simpl.
  - by rewrite Hc.
  - by destruct (JsString.isWhiteSpace a).
Qed.

Lemma trimEnd_cons (c : N) (s : jsstring) :
  JsString.isWhiteSpace c = false →
  JsString.trimEnd (c :: s) = c :: JsString.trimEnd s.
Proof.
  intros Hc. unfold JsString.trimEnd. simpl.
  rewrite trimStart_snoc by done. by rewrite rev_app_distr.
Qed.

Lemma trimEnd_idem (s : jsstring) :
  JsString.trimEnd (JsString.trimEnd s) = JsString.trimEnd s.
Proof.
  unfold JsString.trimEnd. by rewrite rev_involutive, trimStart_idem.
Qed.

Lemma trim_idem (s : jsstring) :
  JsString.trim (JsString.trim s) = JsString.trim s.
Proof.
  unfold JsString.trim.
  assert (Hfix : JsString.trimStart (JsString.trimEnd (JsString.trimStart s))
                 = JsString.trimEnd (JsString.trimStart s)).
  { pose proof (trimStart_head s) as Hhead.
    destruct (JsString.trimStart s) as [|c t]; [done|].
    rewrite trimEnd_cons by done. simpl. by rewrite Hhead. }
  by rewrite Hfix, trimEnd_idem.
Qed.

Lemma normalizeBank_idem (b : jsstring) :
  normalizeBank (normalizeBank b) = normalizeBank b.
Proof.
  rewrite (normalizeBank_firstAlias b).
  destruct (firstAlias aliasTable b) as [t|] eqn:Ht; simpl.
  - apply firstAlias_tag in Ht. revert t Ht. apply Forall_forall.
    apply (bool_decide_unpack _). vm_compute. exact I.
  - rewrite normalizeBank_firstAlias. by rewrite Ht.
Qed.

Lemma stored_idem (e : Entry.t) : stored (stored e) = stored e.
Proof. unfold stored. simpl. by rewrite normalizeBank_idem, trim_idem. Qed.

Lemma key_stored (toLowerCase : jsstring → jsstring) (e : Entry.t) :
  key toLowerCase (stored e) = key toLowerCase e.
Proof.
  unfold key, normCat. simpl. by rewrite normalizeBank_idem, trim_idem.
Qed.

Lemma OMap_set_absent {V : Type} (m : list (jsstring * V)) k v :
  k ∉ OMap.keys m → OMap.set k v m = m ++ [(k, v)].
Proof.
  induction m as [|[k0 v0] m IH]; simpl; [done|].
  intros [Hne Hnin]%not_elem_of_cons.
  rewrite decide_False by done. by rewrite IH.
Qed.

(** Feeding the bindings of a map back through the de-duplication step
    rebuilds the map, as long as each value is already in stored form and
    filed under its own key. *)
Lemma dedup_refold (toLowerCase : jsstring → jsstring)
      (m1 m2 : list (jsstring * Entry.t)) :
  NoDup (OMap.keys (m1 ++ m2)) →
  (∀ k o, (k, o) ∈ m2 → key toLowerCase o = k ∧ stored o = o) →
  fold_left (dedupStep toLowerCase) (OMap.values m2) m1 = m1 ++ m2.
Proof.
  revert m1. induction m2 as [|[k o] m2 IH]; intros m1 Hnd Hm2; simpl.
  - by rewrite app_nil_r.
  - destruct (Hm2 k o (list_elem_of_here _ _)) as [Hk Ho].
    assert (Hnin : k ∉ OMap.keys m1).
    { unfold OMap.keys in *. rewrite List.map_app in Hnd.
      apply NoDup_app in Hnd as (_ & Hdisj & _).
      intros Hin. apply (Hdisj k Hin). simpl. apply list_elem_of_here. }
    assert (Hstep : dedupStep toLowerCase m1 o = m1 ++ [(k, o)]).
    { unfold dedupStep. rewrite Hk.
      apply OMapFacts.get_None in Hnin as Hget. rewrite Hget, Ho.
      by apply OMap_set_absent. }
    rewrite Hstep, IH.
    + by rewrite <- app_assoc.
    + by rewrite <- app_assoc.
    + intros k' o' Hin. apply Hm2. by apply list_elem_of_further.
Qed.

(** X1. De-duplication is idempotent: running the Deduplicator on its own
    output returns that output unchanged, and the matrix built from the
    de-duplicated list is the matrix built from the raw list. *)
Theorem dedupe_idempotent
        (toLowerCase : jsstring → jsstring) (data : list Entry.t)
        (bankConfigs : bankConfigs_t) :
  cleanData toLowerCase (cleanData toLowerCase data) = cleanData toLowerCase data
  ∧ matrix toLowerCase (cleanData toLowerCase data) bankConfigs
    = matrix toLowerCase data bankConfigs.
Proof.
  assert (Hclean : cleanData toLowerCase (cleanData toLowerCase data)
                   = cleanData toLowerCase data).
  { unfold cleanData at 1 3. unfold uniqueEntries at 1. unfold cleanData.
    rewrite (dedup_refold toLowerCase [] (uniqueEntries toLowerCase data)); [done| |].
    - apply uniqueEntries_keys_NoDup.
    - intros k o (w & _ & -> & ->)%uniqueEntries_bindings.
      split; [apply key_stored|apply stored_idem]. }
  split; [done|]. unfold matrix. by rewrite Hclean.
Qed.

(** ** Order and size of the de-duplicated list *)

Lemma keys_dedupStep (toLowerCase : jsstring → jsstring)
      (m : list (jsstring * Entry.t)) (x : Entry.t) :
  OMap.keys (dedupStep toLowerCase m x)
  = if decide (key toLowerCase x ∈ OMap.keys m)
    then OMap.keys m else OMap.keys m ++ [key toLowerCase x].
Proof.
  unfold dedupStep.
  destruct (decide (key toLowerCase x ∈ OMap.keys m)) as [Hin|Hnin].
  - destruct (OMap.get _ m); [destruct (_ >? _)|];
      by rewrite ?OMapFacts.keys_set_present.
  - apply OMapFacts.get_None in Hnin as Hget. rewrite Hget.
    by apply OMapFacts.keys_set_absent.
Qed.

Lemma keys_dedup_fold (toLowerCase : jsstring → jsstring)
      (data : list Entry.t) (m : list (jsstring * Entry.t)) :
  OMap.keys (fold_left (dedupStep toLowerCase) data m)
  = fold_left (λ acc x, if decide (x ∈ acc) then acc else acc ++ [x])
              (List.map (key toLowerCase) data) (OMap.keys m).
Proof.
  revert m. induction data as [|x data IH]; intros m; simpl; [done|].
  by rewrite IH, keys_dedupStep.
Qed.

Lemma length_fromSet_gen (l acc : list jsstring) :
  (length (fold_left (λ acc x, if decide (x ∈ acc) then acc else acc ++ [x])
                     l acc)
   ≤ length acc + length l)%nat.
Proof.
  revert acc. induction l as [|x l IH]; intros acc; simpl; [lia|].
  destruct (decide (x ∈ acc)).
  - specialize (IH acc). lia.
  - specialize (IH (acc ++ [x])). rewrite length_app in IH. simpl in IH. lia.
Qed.

(** X2. The de-duplicated list holds one entry per distinct joined key of
    the input, in the order in which the keys first occur, so it is never
    longer than the input. *)
Theorem cleanData_first_occurrence_order
        (toLowerCase : jsstring → jsstring) (data : list Entry.t) :
  List.map (storedKey toLowerCase) (cleanData toLowerCase data)
  = JsArray.fromSet (List.map (key toLowerCase) data)
  ∧ (length (cleanData toLowerCase data) ≤ length data)%nat.
Proof.
  assert (Hkeys : List.map (storedKey toLowerCase) (cleanData toLowerCase data)
                  = OMap.keys (uniqueEntries toLowerCase data)).
  { unfold cleanData, OMap.values, OMap.keys. rewrite List.map_map.
    apply List.map_ext_in. intros [k o] Hin%list_elem_of_In. simpl.
    by apply uniqueEntries_storedKey in Hin. }
  assert (Hset : OMap.keys (uniqueEntries toLowerCase data)
                 = JsArray.fromSet (List.map (key toLowerCase) data)).
  { unfold uniqueEntries. by rewrite keys_dedup_fold. }
  split; [by rewrite Hkeys|].
  rewrite <- (length_map (storedKey toLowerCase)), Hkeys, Hset.
  pose proof (length_fromSet_gen (List.map (key toLowerCase) data) []) as Hlen.
  rewrite length_map in Hlen. exact Hlen.
Qed.

(** ** Offers and matrix cells *)

Lemma matrixMap_fold_untouched (clean : list Entry.t) (m : gmap jsstring Z) k :
  (∀ d, d ∈ clean → matrixKey (Entry.bankName d) (Entry.category d) ≠ k) →
  fold_left
    (λ m d, <[ matrixKey (Entry.bankName d) (Entry.category d)
               := Entry.percentage d ]> m) clean m !! k
  = m !! k.
Proof.
  revert m. induction clean as [|d clean IH]; intros m Hne; simpl; [done|].
  rewrite IH.
  - apply lookup_insert_ne. apply Hne, list_elem_of_here.
  - intros d' Hd'. apply Hne. by apply list_elem_of_further.
Qed.

Lemma matrixMap_fold_origin (clean : list Entry.t) (m : gmap jsstring Z) k p :
  fold_left
    (λ m d, <[ matrixKey (Entry.bankName d) (Entry.category d)
               := Entry.percentage d ]> m) clean m !! k
  = Some p →
  m !! k = Some p
  ∨ ∃ d, d ∈ clean
         ∧ matrixKey (Entry.bankName d) (Entry.category d) = k
         ∧ Entry.percentage d = p.
Proof.
  revert m. induction clean as [|d clean IH]; intros m; simpl; [by left|].
  intros [Hm|(d' & Hd' & Hk & Hp)]%IH.
  - destruct (decide (matrixKey (Entry.bankName d) (Entry.category d) = k))
      as [Hk|Hk].
    + rewrite Hk, lookup_insert_eq in Hm. injection Hm as <-.
      right. exists d. split; [apply list_elem_of_here|done].
    + rewrite lookup_insert_ne in Hm by done. by left.
  - right. exists d'. split; [by apply list_elem_of_further|done].
Qed.

Lemma matrixMap_fold_agreed (clean : list Entry.t) (m : gmap jsstring Z) k p :
  (∃ d, d ∈ clean ∧ matrixKey (Entry.bankName d) (Entry.category d) = k) →
  (∀ d, d ∈ clean → matrixKey (Entry.bankName d) (Entry.category d) = k →
        Entry.percentage d = p) →
  fold_left
    (λ m d, <[ matrixKey (Entry.bankName d) (Entry.category d)
               := Entry.percentage d ]> m) clean m !! k
  = Some p.
Proof.
  revert m. induction clean as [|d clean IH]; intros m Hex Hall; simpl.
  - destruct Hex as (d & Hd & _). by apply elem_of_nil in Hd.
  - destruct (decide
                (Exists (λ d', matrixKey (Entry.bankName d') (Entry.category d') = k)
                        clean)) as [Hlater|Hnone].
    + apply IH.
      * apply Exists_exists in Hlater as (d' & Hd' & Hk). by exists d'.
      * intros d' Hd'. apply Hall. by apply list_elem_of_further.
    + rewrite matrixMap_fold_untouched.
      * destruct Hex as (d' & [->|Hd']%elem_of_cons & Hk).
        -- rewrite Hk, lookup_insert_eq. f_equal.
           apply Hall; [apply list_elem_of_here|done].
        -- destruct Hnone. apply Exists_exists. by exists d'.
      * intros d' Hd' Hk. apply Hnone. apply Exists_exists. by exists d'.
Qed.

Lemma matrixKey_inj (b1 b2 c1 c2 : jsstring) :
  barFree b1 → barFree b2 →
  matrixKey b1 c1 = matrixKey b2 c2 → b1 = b2 ∧ c1 = c2.
Proof. apply joined_inj. Qed.

Section CellFacts.

Variable toLowerCase : jsstring → jsstring.
Variable data : list Entry.t.
Variable bankConfigs : bankConfigs_t.

Hypothesis data_barFree : Forall (λ x, barFree (Entry.bankName x)) data.

Local Abbreviation clean := (cleanData toLowerCase data).

Lemma clean_barFree o : o ∈ clean → barFree (Entry.bankName o).
Proof.
  intros (w & Hw & ->)%cleanData_origin. simpl.
  apply normalizeBank_barFree. rewrite Forall_forall in data_barFree. auto.
Qed.

Lemma clean_matrixKey_inj o o' :
  o ∈ clean → o' ∈ clean →
  matrixKey (Entry.bankName o') (Entry.category o')
  = matrixKey (Entry.bankName o) (Entry.category o) →
  o' = o.
Proof.
  intros Ho Ho' [Hb Hc]%matrixKey_inj; [|by apply clean_barFree..].
  apply (NoDup_map_inj_on (storedKey toLowerCase) clean); [|done..|].
  - apply cleanData_storedKey_NoDup.
  - unfold storedKey. by rewrite Hb, Hc.
Qed.

Lemma matrixMap_own o :
  o ∈ clean →
  matrixMap clean !! matrixKey (Entry.bankName o) (Entry.category o)
  = Some (Entry.percentage o).
Proof.
  intros Ho. apply matrixMap_fold_agreed; [by exists o|].
  intros d Hd Hk. by rewrite (clean_matrixKey_inj o d Ho Hd Hk).
Qed.

End CellFacts.

(** X3. No offer of an enabled bank is lost (bank names free of "|"):
    every de-duplicated entry of an enabled bank has the row named by its
    category, and in that row the cell of its bank holds its percentage;
    the cell is flagged as selected exactly when the entry is among the
    Top-N of its bank. *)
Theorem offer_has_its_cell
        (toLowerCase : jsstring → jsstring) (data : list Entry.t)
        (bankConfigs : bankConfigs_t) (o : Entry.t) :
  Forall (λ x, barFree (Entry.bankName x)) data →
  Forall barFree (activeBanks bankConfigs) →
  o ∈ cleanData toLowerCase data →
  isEnabled bankConfigs (Entry.bankName o) = true →
  ∃ row,
    row ∈ matrix toLowerCase data bankConfigs
    ∧ Row.name row = Entry.category o
    ∧ Cell.mk (Entry.bankName o) (Some (Entry.percentage o))
              (bool_decide
                 (o ∈ topN bankConfigs (cleanData toLowerCase data)
                           (Entry.bankName o)))
      ∈ Row.values row.
Proof.
  intros Hdata Hbanks Ho Hen.
  assert (Hactive : Entry.bankName o ∈ activeBanks bankConfigs)
    by by apply elem_of_activeBanks.
  eexists. split_and!.
  - apply elem_of_buildMatrix. exists (Entry.category o). split; [|reflexivity].
    apply elem_of_allCategories. by exists o.
  - reflexivity.
  - simpl. apply list_elem_of_fmap. exists (Entry.bankName o). split; [|done].
    unfold cellOf. f_equal.
    + symmetry. by apply matrixMap_own.
    + symmetry.
      apply (isSelectedOffer_topN toLowerCase data bankConfigs Hbanks); [done|].
      by apply elem_of_offers.
Qed.

Lemma offer_has_its_cell_witness :
  ∃ row,
    row ∈ matrix Examples.lower Examples.taxiData Examples.taxiConfig
    ∧ Row.name row = js "такси"
    ∧ Cell.mk (js "Sber") (Some 7)
              (bool_decide
                 (Examples.entry 2 (js "Sber") (js "такси") 7
                  ∈ topN Examples.taxiConfig
                         (cleanData Examples.lower Examples.taxiData)
                         (js "Sber")))
      ∈ Row.values row.
Proof.
  apply (offer_has_its_cell Examples.lower Examples.taxiData Examples.taxiConfig
           (Examples.entry 2 (js "Sber") (js "такси") 7)).
  - apply (bool_decide_unpack _). vm_compute. exact I.
  - apply (bool_decide_unpack _). vm_compute. exact I.
  - apply (bool_decide_unpack _). vm_compute. exact I.
  - reflexivity.
Defined.

(** X4. No cell is invented (bank names free of "|"): a matrix cell that
    holds a percentage holds the percentage of a de-duplicated entry of
    that cell's bank whose category is the row's name. *)
Theorem cell_percentage_has_its_offer
        (toLowerCase : jsstring → jsstring) (data : list Entry.t)
        (bankConfigs : bankConfigs_t) (row : Row.t) (cell : Cell.t) (p : Z) :
  Forall (λ x, barFree (Entry.bankName x)) data →
  Forall barFree (activeBanks bankConfigs) →
  row ∈ matrix toLowerCase data bankConfigs →
  cell ∈ Row.values row →
  Cell.percentage cell = Some p →
  ∃ o,
    o ∈ cleanData toLowerCase data
    ∧ Entry.bankName o = Cell.bank cell
    ∧ Entry.category o = Row.name row
    ∧ Entry.percentage o = p
    ∧ isEnabled bankConfigs (Cell.bank cell) = true.
Proof.
  intros Hdata Hbanks Hrow Hcell Hp. unfold matrix in Hrow.
  apply elem_of_buildMatrix in Hrow as (cat & _ & ->).
  simpl in Hcell. apply list_elem_of_fmap in Hcell as (b & -> & Hb).
  simpl in *. unfold matrixMap in Hp.
  apply matrixMap_fold_origin in Hp as [Hp|(o & Ho & Hk & Hpct)].
  - by rewrite lookup_empty in Hp.
  - rewrite Forall_forall in Hbanks.
    apply matrixKey_inj in Hk as [Hbank Hcat];
      [|by eapply clean_barFree|by apply Hbanks].
    exists o. split_and!; [done..|]. by apply elem_of_activeBanks.
Qed.

Lemma cell_percentage_has_its_offer_witness :
  ∃ o,
    o ∈ cleanData Examples.lower Examples.taxiData
    ∧ Entry.bankName o = js "T-Bank"
    ∧ Entry.category o = js "Такси"
    ∧ Entry.percentage o = 6
    ∧ isEnabled Examples.taxiConfig (js "T-Bank") = true.
Proof.
  apply (cell_percentage_has_its_offer Examples.lower Examples.taxiData
           Examples.taxiConfig
           (Row.mk (js "Такси")
              [ Cell.mk (js "Sber") None true;
                Cell.mk (js "T-Bank") (Some 6) true ])
           (Cell.mk (js "T-Bank") (Some 6) true) 6).
  - apply (bool_decide_unpack _). vm_compute. exact I.
  - apply (bool_decide_unpack _). vm_compute. exact I.
  - apply (bool_decide_unpack _). vm_compute. exact I.
  - apply (bool_decide_unpack _). vm_compute. exact I.
  - reflexivity.
Defined.

(** ** Sorting *)

Lemma ltb_irrefl (s : jsstring) : JsString.ltb s s = false.
Proof.
  induction s as [|a s IH]; simpl; [done|].
  rewrite IH, N.ltb_irrefl, N.eqb_refl. done.
Qed.

Lemma ltb_cons (a b : N) (s t : jsstring) :
  JsString.ltb (a :: s) (b :: t) = true
  ↔ (a < b)%N ∨ a = b ∧ JsString.ltb s t = true.
Proof.
  simpl. rewrite orb_true_iff, andb_true_iff, N.ltb_lt, N.eqb_eq. done.
Qed.

Lemma ltb_trans (s t u : jsstring) :
  JsString.ltb s t = true → JsString.ltb t u = true → JsString.ltb s u = true.
Proof.
  revert t u. induction s as [|a s IH]; intros [|b t] [|c u]; try done.
  rewrite !ltb_cons. intros [Hab|[-> Hst]] [Hbc|[-> Htu]].
  - left. lia.
  - by left.
  - by left.
  - right. split; [done|]. by apply (IH t u).
Qed.

Lemma ltb_total (s t : jsstring) :
  JsString.ltb s t = false → JsString.ltb t s = false → s = t.
Proof.
  revert t. induction s as [|a s IH]; intros [|b t]; try done.
  intros Hst Hts.
  destruct (N.lt_trichotomy a b) as [Hlt|[->|Hgt]].
  - assert (JsString.ltb (a :: s) (b :: t) = true) by (apply ltb_cons; by left).
    congruence.
  - f_equal. apply IH.
    + destruct (JsString.ltb s t) eqn:E; [|done].
      assert (JsString.ltb (b :: s) (b :: t) = true) by (apply ltb_cons; by right).
      congruence.
    + destruct (JsString.ltb t s) eqn:E; [|done].
      assert (JsString.ltb (b :: t) (b :: s) = true) by (apply ltb_cons; by right).
      congruence.
  - assert (JsString.ltb (b :: t) (a :: s) = true) by (apply ltb_cons; by left).
    congruence.
Qed.

Lemma ltb_asym (s t : jsstring) :
  JsString.ltb s t = true → JsString.ltb t s = false.
Proof.
  intros Hst. destruct (JsString.ltb t s) eqn:Hts; [|done].
  pose proof (ltb_trans s t s Hst Hts) as Habs.
  by rewrite ltb_irrefl in Habs.
Qed.

Lemma ltb_not_trans (s t u : jsstring) :
  JsString.ltb t s = false → JsString.ltb u t = false →
  JsString.ltb u s = false.
Proof.
  intros Hts Hut. destruct (JsString.ltb u s) eqn:Hus; [|done].
  destruct (JsString.ltb s t) eqn:Hst.
  - by rewrite (ltb_trans u s t Hus Hst) in Hut.
  - rewrite (ltb_total s t Hst Hts) in Hus. congruence.
Qed.

Section InsertionSort.

Context {A : Type} (before : A → A → bool).

(** [x] may stand in front of [y]. *)
Local Abbreviation ordered := (λ x y : A, before y x = false).

Hypothesis ordered_trans :
  ∀ x y z, before y x = false → before z y = false → before z x = false.
Hypothesis before_asym : ∀ x y, before x y = true → before y x = false.

Lemma insertBy_sorted x l :
  StronglySorted ordered l → StronglySorted ordered (JsArray.insertBy before x l).
Proof.
  induction 1 as [|y l Hsorted IH Hy]; simpl.
  - repeat constructor.
  - destruct (before y x) eqn:Hyx.
    + constructor; [done|].
      rewrite JsArrayFacts.insertBy_Permutation. constructor; [|done].
      by apply before_asym.
    + constructor; [by constructor|]. constructor; [done|].
      eapply Forall_impl; [exact Hy|]. intros z Hz. simpl in *.
      by apply (ordered_trans x y z).
Qed.

Lemma sortBy_sorted l : StronglySorted ordered (JsArray.sortBy before l).
Proof.
  induction l as [|x l IH]; simpl; [constructor|]. by apply insertBy_sorted.
Qed.

(** The elements skipped by the insertion all stand strictly before [x],
    so the elements that tie with [x] keep their order behind it. *)
Lemma insertBy_filter (f : A → bool) x l :
  (∀ y, before y x = true → f y = f x → f x = false) →
  List.filter f (JsArray.insertBy before x l) = List.filter f (x :: l).
Proof.
  intros Hskip. induction l as [|y l IH]; simpl; [done|].
  destruct (before y x) eqn:Hyx; [|done]. simpl in *. rewrite IH.
  pose proof (Hskip y Hyx) as Hs.
  destruct (f y), (f x); try done. by specialize (Hs eq_refl).
Qed.

End InsertionSort.

Lemma StronglySorted_app_elem {A : Type} (R : A → A → Prop) (l1 l2 : list A) x y :
  StronglySorted R (l1 ++ l2) → x ∈ l1 → y ∈ l2 → R x y.
Proof.
  induction l1 as [|a l1 IH]; simpl.
  - intros _ Hx. by apply elem_of_nil in Hx.
  - intros [Hsorted Hall]%StronglySorted_inv [->|Hx]%elem_of_cons Hy.
    + rewrite Forall_forall in Hall. apply Hall. apply elem_of_app. by right.
    + by apply IH.
Qed.

Lemma NoDup_fromSet_gen (l acc : list jsstring) :
  NoDup acc →
  NoDup (fold_left (λ acc x, if decide (x ∈ acc) then acc else acc ++ [x]) l acc).
Proof.
  revert acc. induction l as [|x l IH]; intros acc Hacc; simpl; [done|].
  apply IH. destruct (decide (x ∈ acc)) as [|Hnin]; [done|].
  apply NoDup_app. split_and!; [done| |apply NoDup_singleton].
  intros y Hy ->%list_elem_of_singleton. done.
Qed.

Lemma sorted_strict (l : list jsstring) :
  NoDup l →
  StronglySorted (λ x y, JsString.ltb y x = false) l →
  StronglySorted (λ x y, JsString.ltb x y = true) l.
Proof.
  induction l as [|a l IH]; [constructor|].
  intros [Hnin Hnd]%NoDup_cons [Hsorted Hall]%StronglySorted_inv.
  constructor; [by apply IH|].
  rewrite Forall_forall in Hall. apply Forall_forall. intros y Hy.
  destruct (JsString.ltb a y) eqn:Hay; [done|].
  rewrite (ltb_total a y Hay (Hall y Hy)) in Hnin. done.
Qed.

(** X5. The rows of the matrix are in strictly ascending code-unit order of
    their names; in particular no two rows share a name. *)
Theorem matrix_rows_strictly_ascending
        (toLowerCase : jsstring → jsstring) (data : list Entry.t)
        (bankConfigs : bankConfigs_t) :
  StronglySorted (λ a b, JsString.ltb a b = true)
                 (List.map Row.name (matrix toLowerCase data bankConfigs)).
Proof.
  unfold matrix, buildMatrix. cbv zeta. rewrite List.map_map. simpl.
  rewrite List.map_id. unfold allCategories, JsArray.sortStrings.
  apply sorted_strict.
  - rewrite JsArrayFacts.sortBy_Permutation. by apply NoDup_fromSet_gen, NoDup_nil.
  - apply sortBy_sorted; [apply ltb_not_trans|apply ltb_asym].
Qed.

Lemma StronglySorted_weaken {A : Type} (R R' : A → A → Prop) (l : list A) :
  (∀ x y, R x y → R' x y) → StronglySorted R l → StronglySorted R' l.
Proof.
  intros Himpl. induction 1 as [|x l Hsorted IH Hall]; constructor; [done|].
  eapply Forall_impl; [exact Hall|]. intros y. apply Himpl.
Qed.

Lemma bankEntries_sorted (clean : list Entry.t) (b : jsstring) :
  StronglySorted (λ x y, Entry.percentage y ≤ Entry.percentage x)
                 (bankEntries clean b).
Proof.
  unfold bankEntries.
  eapply StronglySorted_weaken; [|apply sortBy_sorted].
  - intros x y Hxy. simpl in Hxy. lia.
  - intros x y z. lia.
  - intros x y. lia.
Qed.

(** X6. The Top-N of a bank really is the top: no offer of the bank that is
    left out of the selection has a greater percentage than an offer that
    is in it. *)
Theorem topN_dominates
        (bankConfigs : bankConfigs_t) (clean : list Entry.t) (b : jsstring)
        (e e' : Entry.t) :
  e ∈ topN bankConfigs clean b →
  e' ∈ offers clean b →
  e' ∉ topN bankConfigs clean b →
  Entry.percentage e' ≤ Entry.percentage e.
Proof.
  unfold topN, JsArray.slice0. cbv zeta.
  set (n := Z.to_nat _). intros He He' Hout.
  rewrite <- bankEntries_Permutation in He'.
  rewrite <- (take_drop n (bankEntries clean b)) in He'.
  apply elem_of_app in He' as [?|Hdrop]; [done|].
  pose proof (bankEntries_sorted clean b) as Hsorted.
  rewrite <- (take_drop n (bankEntries clean b)) in Hsorted.
  exact (StronglySorted_app_elem _ _ _ e e' Hsorted He Hdrop).
Qed.

Lemma topN_dominates_witness :
  Entry.percentage (Examples.entry 1 (js "Sber") (js "A") 1)
  ≤ Entry.percentage (Examples.entry 6 (js "Sber") (js "F") 6).
Proof.
  apply (topN_dominates Examples.zeroLimitConfig
           (cleanData Examples.lower Examples.sixOffers) (js "Sber")).
  - apply (bool_decide_unpack _). vm_compute. exact I.
  - apply (bool_decide_unpack _). vm_compute. exact I.
  - apply (bool_decide_unpack _). vm_compute. exact I.
Defined.

(** X7. The ranking of a bank's offers is stable: offers with the same
    percentage stay in the order they have in the de-duplicated list. *)
Theorem bankEntries_stable (clean : list Entry.t) (b : jsstring) (q : Z) :
  List.filter (λ e, bool_decide (Entry.percentage e = q)) (bankEntries clean b)
  = List.filter (λ e, bool_decide (Entry.percentage e = q)) (offers clean b).
Proof.
  unfold bankEntries. fold (offers clean b).
  induction (offers clean b) as [|x l IH]; [done|].
  simpl JsArray.sortBy. rewrite insertBy_filter.
  - simpl. by rewrite IH.
  - intros y Hyx Heq. apply bool_decide_eq_false. intros Hx.
    rewrite (bool_decide_eq_true_2 _ Hx) in Heq.
    apply bool_decide_eq_true in Heq. lia.
Qed.

(** ** Winners and the table body *)

Lemma maxActivePercent_attained (row : Row.t) (c : Cell.t) :
  c ∈ Row.values row → Cell.isSelected c = true → Cell.percentage c ≠ None →
  ∃ w, w ∈ Row.values row ∧ Cell.isSelected w = true
       ∧ Cell.percentage w = Some (maxActivePercent row).
Proof.
  intros Hc Hsel Hp. destruct (Cell.percentage c) as [p|] eqn:Hpc; [|done].
  assert (Hin : p ∈ omap Cell.percentage (activeValues row)).
  { apply list_elem_of_omap. exists c. split; [|done].
    apply list_elem_of_In, List.filter_In. split; [by apply list_elem_of_In|].
    unfold isActive. rewrite Hsel, Hpc. done. }
  assert (Hatt : maxActivePercent row ∈ omap Cell.percentage (activeValues row)).
  { unfold maxActivePercent.
    destruct (omap Cell.percentage (activeValues row)) as [|p0 ps].
    - by apply elem_of_nil in Hin.
    - apply mathMax_attained. }
  apply list_elem_of_omap in Hatt as (w & Hw & Hq).
  apply list_elem_of_In, List.filter_In in Hw as [Hw Hact].
  apply list_elem_of_In in Hw. unfold isActive in Hact.
  apply andb_true_iff in Hact as [Hselw _]. by exists w.
Qed.

(** X8. A row has a winner exactly when one of its cells is selected and
    holds a percentage; so a row with a selected offer is never left
    without a highlighted cell or without its line in the cheat sheet. *)
Theorem winner_exists_iff (row : Row.t) :
  hasWinner row = true
  ↔ ∃ c, c ∈ Row.values row ∧ Cell.isSelected c = true
         ∧ Cell.percentage c ≠ None.
Proof.
  unfold hasWinner. rewrite bool_decide_eq_true. split.
  - intros Hne. destruct (winners row) as [|w ws] eqn:Hw; [done|].
    assert (Hin : w ∈ winners row) by (rewrite Hw; apply list_elem_of_here).
    apply elem_of_winners in Hin as (Hin & Hsel & Hp).
    exists w. split_and!; [done..|]. by rewrite Hp.
  - intros (c & Hc & Hsel & Hp).
    destruct (maxActivePercent_attained row c Hc Hsel Hp) as (w & Hw & Hselw & Hpw).
    intros Hnil.
    assert (Hin : w ∈ winners row) by by apply elem_of_winners.
    rewrite Hnil in Hin. by apply elem_of_nil in Hin.
Qed.

Lemma winner_exists_iff_witness : hasWinner Examples.tiedRow = true.
Proof.
  apply (proj2 (winner_exists_iff Examples.tiedRow)).
  exists Examples.sber7. split_and!.
  - apply (bool_decide_unpack _). vm_compute. exact I.
  - reflexivity.
  - discriminate.
Defined.

(** X9. In the table body a cell gets the "best choice" style exactly when
    it is a winner of its row, the winner test of the cheat sheet; a cell
    without a percentage is drawn as "-" in the default style, even when
    it carries the selection flag. *)
Theorem cellClass_highlights_winners (row : Row.t) (cell : Cell.t) :
  (cellClass row cell
   = js "bg-emerald-500/20 text-emerald-400 font-bold border-2 border-emerald-500/50"
   ↔ isWinner row cell = true)
  ∧ (Cell.percentage cell = None →
     cellClass row cell = js "text-slate-700" ∧ displayCell cell = js "-").
Proof.
  split.
  - unfold cellClass, isWinner. cbv zeta.
    destruct (Cell.percentage cell) as [p|] eqn:Hp.
    + rewrite (bool_decide_eq_true_2 (Some p ≠ None)) by discriminate.
      destruct (Cell.isSelected cell); simpl.
      * destruct (bool_decide (Some p = Some (maxActivePercent row))).
        -- split; intros _; reflexivity.
        -- split; intros H; [vm_compute in H|]; discriminate H.
      * split; intros H; [vm_compute in H|]; discriminate H.
    + rewrite (bool_decide_eq_false_2 (None ≠ None)) by (intros H; by apply H).
      rewrite (bool_decide_eq_false_2 (None = Some _)) by discriminate.
      rewrite andb_false_r.
      split; intros H; [vm_compute in H|]; discriminate H.
  - intros Hp. unfold cellClass, displayCell. cbv zeta. rewrite Hp.
    rewrite (bool_decide_eq_false_2 (None ≠ None)) by (intros H; by apply H).
    split; reflexivity.
Qed.

Lemma cellClass_highlights_winners_witness :
  cellClass Examples.tiedRow (Cell.mk (js "Sber") None true) = js "text-slate-700"
  ∧ displayCell (Cell.mk (js "Sber") None true) = js "-".
Proof.
  apply (proj2 (cellClass_highlights_winners Examples.tiedRow
                  (Cell.mk (js "Sber") None true))).
  reflexivity.
Defined.

(** ** Bank aliases *)

Lemma startsWith_spec (pat s : jsstring) :
  JsString.startsWith pat s = true ↔ ∃ post, s = pat ++ post.
Proof.
  revert s. induction pat as [|p pat IH]; intros s; simpl.
  - split; [by exists s|done].
  - destruct s as [|c s].
    + split; [done|]. intros [post Hpost]. discriminate Hpost.
    + rewrite andb_true_iff, N.eqb_eq, IH. split.
      * intros [-> [post ->]]. by exists post.
      * intros [post [= -> ->]]. split; [done|]. by exists post.
Qed.

(** [includes] finds exactly the contiguous occurrences. *)
Lemma includes_spec (s pat : jsstring) :
  JsString.includes s pat = true ↔ ∃ pre post, s = pre ++ pat ++ post.
Proof.
  induction s as [|c s IH]; simpl.
  - rewrite orb_false_r, startsWith_spec. split.
    + intros [post Hpost]. by exists [], post.
    + intros (pre & post & Heq). destruct pre as [|? pre]; [|discriminate Heq].
      by exists post.
  - rewrite orb_true_iff, startsWith_spec, IH. split.
    + intros [[post Hpost]|(pre & post & ->)].
      * by exists [], post.
      * by exists (c :: pre), post.
    + intros ([|c' pre] & post & Heq).
      * left. by exists post.
      * right. injection Heq as -> ->. by exists pre, post.
Qed.

Lemma firstAlias_app (t1 t2 : list (jsstring * jsstring)) (b : jsstring) :
  (∀ pat tag, (pat, tag) ∈ t1 → JsString.includes b pat = false) →
  firstAlias (t1 ++ t2) b = firstAlias t2 b.
Proof.
  induction t1 as [|[pat tag] t1 IH]; intros Hnone; simpl; [done|].
  rewrite (Hnone pat tag) by apply list_elem_of_here.
  apply IH. intros pat' tag' Hin. apply (Hnone pat' tag').
  by apply list_elem_of_further.
Qed.

(** X10. The Normalizer gives a bank name the tag of the first alias, in
    the order Tinkoff, Сбер, Альфа, ВТБ, Яндекс, that occurs in it as a
    contiguous run of characters (the match is case-sensitive), and
    normalising a second time changes nothing. *)
Theorem normalizeBank_first_match
        (bankName pat tag : jsstring) (earlier later : list (jsstring * jsstring)) :
  aliasTable = earlier ++ (pat, tag) :: later →
  (∃ pre post, bankName = pre ++ pat ++ post) →
  (∀ pat' tag', (pat', tag') ∈ earlier →
                ¬ ∃ pre post, bankName = pre ++ pat' ++ post) →
  normalizeBank bankName = tag
  ∧ normalizeBank (normalizeBank bankName) = normalizeBank bankName.
Proof.
  intros Htable Hocc Hearlier. split; [|apply normalizeBank_idem].
  rewrite normalizeBank_firstAlias, Htable, firstAlias_app.
  - simpl. apply includes_spec in Hocc. by rewrite Hocc.
  - intros pat' tag' Hin.
    destruct (JsString.includes bankName pat') eqn:Hinc; [|done].
    apply includes_spec in Hinc. by destruct (Hearlier pat' tag' Hin).
Qed.

Lemma normalizeBank_first_match_witness :
  normalizeBank (js "ПАО Сбербанк") = js "Sber"
  ∧ normalizeBank (normalizeBank (js "ПАО Сбербанк"))
    = normalizeBank (js "ПАО Сбербанк").
Proof.
  apply (normalizeBank_first_match (js "ПАО Сбербанк") (js "Сбер") (js "Sber")
           [ (js "Tinkoff", js "T-Bank") ]
           [ (js "Альфа", js "Alfa"); (js "ВТБ", js "VTB");
             (js "Яндекс", js "Yandex") ]).
  - reflexivity.
  - exists (js "ПАО "), (js "банк"). vm_compute. reflexivity.
  - intros pat' tag' Hin Hocc. apply list_elem_of_singleton in Hin.
    injection Hin as -> ->. apply includes_spec in Hocc.
    vm_compute in Hocc. discriminate Hocc.
Defined.

(** * The settings panel ([App.tsx]) *)



Lemma OMap_get_Some_keys {V : Type} (m : list (jsstring * V)) k v :
  OMap.get k m = Some v → k ∈ OMap.keys m.
Proof.
  intros Hget. destruct (decide (k ∈ OMap.keys m)) as [|Hnin]; [done|].
  apply OMapFacts.get_None in Hnin. congruence.
Qed.

Lemma configOf_set (cfg : bankConfigs_t) (bank b : jsstring) (c : BankConfig.t) :
  configOf (OMap.set bank c cfg) b
  = if decide (bank = b) then Some c else configOf cfg b.
Proof.
  unfold configOf. destruct (decide (bank = b)) as [->|Hne].
  - apply OMapFacts.get_set_eq.
  - by apply OMapFacts.get_set_ne.
Qed.





(** ** Reachable configurations *)

Lemma perform_keys (cfg cfg' : bankConfigs_t) (a : App.action) :
  App.perform cfg a = Some cfg' → OMap.keys cfg' = OMap.keys cfg.
Proof.
  destruct a as [bank|bank newLimit]; simpl.
  - unfold App.toggleBank. destruct (configOf cfg bank) as [c|] eqn:Hc; [|done].
    intros [= <-]. apply OMapFacts.keys_set_present.
    by apply OMap_get_Some_keys in Hc.
  - unfold App.updateLimit.
    destruct (JsGlobal.parseInt newLimit) as [num|]; [|by intros [= <-]].
    destruct (0 <=? num); [|by intros [= <-]].
    destruct (configOf cfg bank) as [c|] eqn:Hc; [|done].
    intros [= <-]. apply OMapFacts.keys_set_present.
    by apply OMap_get_Some_keys in Hc.
Qed.

Lemma perform_limits (cfg cfg' : bankConfigs_t) (a : App.action) :
  App.perform cfg a = Some cfg' →
  (∀ b c, configOf cfg b = Some c → 0 ≤ BankConfig.limit c) →
  ∀ b c, configOf cfg' b = Some c → 0 ≤ BankConfig.limit c.
Proof.
  intros Hstep Hinv b c'.
  destruct a as [bank|bank newLimit]; simpl in Hstep.
  - unfold App.toggleBank in Hstep.
    destruct (configOf cfg bank) as [c|] eqn:Hc; [|done].
    injection Hstep as <-. rewrite configOf_set.
    destruct (decide (bank = b)) as [<-|Hne]; [|apply Hinv].
    intros [= <-]. simpl. by apply (Hinv bank).
  - unfold App.updateLimit in Hstep.
    destruct (JsGlobal.parseInt newLimit) as [num|];
      [|injection Hstep as <-; apply Hinv].
    destruct (Z.leb_spec 0 num); [|injection Hstep as <-; apply Hinv].
    destruct (configOf cfg bank) as [c|] eqn:Hc; [|done].
    injection Hstep as <-. rewrite configOf_set.
    destruct (decide (bank = b)) as [<-|Hne]; [|apply Hinv].
    intros [= <-]. done.
Qed.

Lemma reachable_keys (cfg : bankConfigs_t) :
  App.reachable cfg → OMap.keys cfg = OMap.keys App.DEFAULT_CONFIGS.
Proof.
  induction 1 as [|cfg a cfg' _ IH Hstep]; [done|].
  by rewrite (perform_keys _ _ _ Hstep).
Qed.

Lemma reachable_limits (cfg : bankConfigs_t) :
  App.reachable cfg → ∀ b c, configOf cfg b = Some c → 0 ≤ BankConfig.limit c.
Proof.
  induction 1 as [|cfg a cfg' _ IH Hstep].
  - intros b c Hc. apply OMapFacts.get_Some_elem_of in Hc.
    assert (Hall : Forall (λ bc : jsstring * BankConfig.t,
                             0 ≤ BankConfig.limit bc.2) App.DEFAULT_CONFIGS)
      by (repeat constructor; simpl; lia).
    rewrite Forall_forall in Hall. exact (Hall (b, c) Hc).
  - by apply (perform_limits _ _ _ Hstep).
Qed.

Lemma reachable_activeBanks_barFree (cfg : bankConfigs_t) :
  App.reachable cfg → Forall barFree (activeBanks cfg).
Proof.
  intros Hkeys%reachable_keys. apply Forall_forall. intros b Hb.
  unfold activeBanks in Hb. apply list_elem_of_In, List.filter_In in Hb as [Hb _].
  rewrite Hkeys in Hb. apply list_elem_of_In in Hb. revert b Hb.
  apply Forall_forall. apply (bool_decide_unpack _). vm_compute. exact I.
Qed.

(** X13. Whatever sequence of toggles and limit updates the settings panel
    performs, the configuration keeps the five banks of
    [DEFAULT_CONFIGS] in their order, and no limit is ever negative. *)
Theorem reachable_config_invariant (cfg : bankConfigs_t) :
  App.reachable cfg →
  OMap.keys cfg = [ js "Sber"; js "T-Bank"; js "Alfa"; js "VTB"; js "Yandex" ]
  ∧ (∀ b c, configOf cfg b = Some c → 0 ≤ BankConfig.limit c).
Proof.
  intros Hreach. split.
  - by rewrite (reachable_keys cfg Hreach).
  - by apply reachable_limits.
Qed.

Lemma reachable_example :
  App.reachable
    [ (js "Sber", BankConfig.mk true 0 (js "text-green-400 border-green-500/30"));
      (js "T-Bank", BankConfig.mk false 4 (js "text-yellow-400 border-yellow-500/30"));
      (js "Alfa", BankConfig.mk true 5 (js "text-red-400 border-red-500/30"));
      (js "VTB", BankConfig.mk true 4 (js "text-blue-400 border-blue-500/30"));
      (js "Yandex", BankConfig.mk true 5 (js "text-amber-400 border-amber-500/30")) ].
Proof.
  eapply (App.reachable_step _ (App.SetLimit (js "Sber") (js "0"))).
  - eapply (App.reachable_step _ (App.Toggle (js "T-Bank"))).
    + apply App.reachable_init.
    + reflexivity.
  - reflexivity.
Defined.

Lemma reachable_config_invariant_witness :
  OMap.keys
    [ (js "Sber", BankConfig.mk true 0 (js "text-green-400 border-green-500/30"));
      (js "T-Bank", BankConfig.mk false 4 (js "text-yellow-400 border-yellow-500/30"));
      (js "Alfa", BankConfig.mk true 5 (js "text-red-400 border-red-500/30"));
      (js "VTB", BankConfig.mk true 4 (js "text-blue-400 border-blue-500/30"));
      (js "Yandex", BankConfig.mk true 5 (js "text-amber-400 border-amber-500/30")) ]
  = [ js "Sber"; js "T-Bank"; js "Alfa"; js "VTB"; js "Yandex" ].
Proof.
  apply (reachable_config_invariant _ reachable_example).
Defined.

(** X14. Under every configuration the settings panel can reach, the
    number of selected offers of an enabled bank is the smaller of the
    number of its de-duplicated offers and the limit the Selector uses:
    the configured limit, or 5 when the configured limit is 0. *)
Theorem selection_size_reachable
        (toLowerCase : jsstring → jsstring) (data : list Entry.t)
        (cfg : bankConfigs_t) (b : jsstring) (c : BankConfig.t) :
  App.reachable cfg →
  configOf cfg b = Some c →
  BankConfig.enabled c = true →
  Z.of_nat (selectedCount toLowerCase cfg (cleanData toLowerCase data) b)
  = Z.min (if BankConfig.limit c =? 0 then 5 else BankConfig.limit c)
          (Z.of_nat (length (offers (cleanData toLowerCase data) b))).
Proof.
  intros Hreach Hc Hen.
  assert (Hlim : limitOf cfg b
                 = if BankConfig.limit c =? 0 then 5 else BankConfig.limit c).
  { unfold limitOf. by rewrite Hc. }
  rewrite <- Hlim. apply selectedCount_limitOf.
  - by apply reachable_activeBanks_barFree.
  - apply elem_of_activeBanks. unfold isEnabled. by rewrite Hc.
  - rewrite Hlim. pose proof (reachable_limits cfg Hreach b c Hc).
    destruct (Z.eqb_spec (BankConfig.limit c) 0); lia.
Qed.

Lemma selection_size_reachable_witness :
  Z.of_nat
    (selectedCount Examples.lower App.DEFAULT_CONFIGS
       (cleanData Examples.lower Examples.sixOffers) (js "Sber"))
  = Z.min 5
      (Z.of_nat
         (length (offers (cleanData Examples.lower Examples.sixOffers) (js "Sber")))).
Proof.
  apply (selection_size_reachable Examples.lower Examples.sixOffers
           App.DEFAULT_CONFIGS (js "Sber")
           (BankConfig.mk true 5 (js "text-green-400 border-green-500/30"))).
  - apply App.reachable_init.
  - reflexivity.
  - reflexivity.
Defined.

Lemma filter_filter_andb {A : Type} (f g : A → bool) (l : list A) :
  List.filter f (List.filter g l) = List.filter (λ x, g x && f x) l.
Proof.
  induction l as [|x l IH]; simpl; [done|].
  destruct (g x); simpl; [|done]. destruct (f x); by rewrite IH.
Qed.

(** X15. Switching an enabled bank off removes exactly its column: the
    other columns stay, in the same order, in every row of the matrix. *)
Theorem toggle_off_removes_column
        (toLowerCase : jsstring → jsstring) (data : list Entry.t)
        (prev next : bankConfigs_t) (bank : jsstring) :
  isEnabled prev bank = true →
  App.toggleBank prev bank = Some next →
  targetBanks next
  = List.filter (λ b, bool_decide (b ≠ bank)) (targetBanks prev)
  ∧ ∀ row, row ∈ matrix toLowerCase data next →
           List.map Cell.bank (Row.values row)
           = List.filter (λ b, bool_decide (b ≠ bank)) (targetBanks prev).
Proof.
  intros Hen Htoggle. unfold App.toggleBank in Htoggle.
  unfold isEnabled in Hen.
  destruct (configOf prev bank) as [c|] eqn:Hc; [|done].
  injection Htoggle as <-.
  assert (Hcols : targetBanks
                    (OMap.set bank
                       (BankConfig.mk (negb (BankConfig.enabled c))
                                      (BankConfig.limit c) (BankConfig.color c))
                       prev)
                  = List.filter (λ b, bool_decide (b ≠ bank)) (targetBanks prev)).
  { unfold targetBanks, activeBanks.
    rewrite OMapFacts.keys_set_present by by apply OMap_get_Some_keys in Hc.
    rewrite filter_filter_andb. apply List.filter_ext. intros b.
    unfold isEnabled. rewrite configOf_set.
    destruct (decide (bank = b)) as [<-|Hne].
    - simpl. rewrite Hen. simpl.
      by rewrite Hc, Hen, (bool_decide_eq_false_2 (bank ≠ bank)) by (intros H; by apply H).
    - rewrite (bool_decide_eq_true_2 (b ≠ bank)) by congruence.
      by rewrite andb_true_r. }
  split; [exact Hcols|].
  intros row Hrow. unfold matrix in Hrow. apply row_banks in Hrow.
  by rewrite Hrow.
Qed.

Lemma toggle_off_removes_column_witness :
  ∃ next,
    App.toggleBank App.DEFAULT_CONFIGS (js "Alfa") = Some next
    ∧ targetBanks next = [ js "Sber"; js "T-Bank"; js "VTB"; js "Yandex" ].
Proof.
  destruct (App.toggleBank App.DEFAULT_CONFIGS (js "Alfa")) as [next|] eqn:Ht;
    [|vm_compute in Ht; discriminate Ht].
  exists next. split; [reflexivity|].
  assert (Hen : isEnabled App.DEFAULT_CONFIGS (js "Alfa") = true)
    by (vm_compute; reflexivity).
  rewrite (proj1 (toggle_off_removes_column Examples.lower [] _ _ _ Hen Ht)).
  vm_compute. reflexivity.
Defined.

(** X16. Under every configuration the settings panel can reach, the matrix
    has columns only for the five configured banks. Offers filed under any
    other bank name, such as the "Other" that the extraction service gives
    to an item without a bank name, have no column, and a category that
    only such offers carry has no row. *)
Theorem unconfigured_banks_never_shown
        (toLowerCase : jsstring → jsstring) (data : list Entry.t)
        (cfg : bankConfigs_t) :
  App.reachable cfg →
  (∀ row cell,
     row ∈ matrix toLowerCase data cfg → cell ∈ Row.values row →
     Cell.bank cell ∈ [ js "Sber"; js "T-Bank"; js "Alfa"; js "VTB"; js "Yandex" ])
  ∧ (∀ cat,
       (∀ o, o ∈ cleanData toLowerCase data → Entry.category o = cat →
             Entry.bankName o
             ∉ [ js "Sber"; js "T-Bank"; js "Alfa"; js "VTB"; js "Yandex" ]) →
       cat ∉ List.map Row.name (matrix toLowerCase data cfg))
  ∧ normalizeBank (Service.orString None (js "Other")) = js "Other"
  ∧ isEnabled cfg (js "Other") = false.
Proof.
  intros Hkeys%reachable_keys.
  assert (Hactive : ∀ b, b ∈ activeBanks cfg →
            b ∈ [ js "Sber"; js "T-Bank"; js "Alfa"; js "VTB"; js "Yandex" ]).
  { intros b Hb. unfold activeBanks in Hb.
    apply list_elem_of_In, List.filter_In in Hb as [Hb _].
    rewrite Hkeys in Hb. by apply list_elem_of_In in Hb. }
  split_and!.
  - intros row cell Hrow Hcell. unfold matrix in Hrow.
    apply row_banks in Hrow. apply Hactive. rewrite <- Hrow.
    apply list_elem_of_fmap. by exists cell.
  - intros cat Honly (row & -> & Hrow)%list_elem_of_fmap.
    unfold matrix in Hrow.
    apply elem_of_buildMatrix in Hrow as (cat & Hcat & ->). simpl in Honly.
    apply elem_of_allCategories in Hcat as (o & Ho & Hen & <-).
    apply (Honly o Ho eq_refl). apply Hactive. by apply elem_of_activeBanks.
  - vm_compute. reflexivity.
  - destruct (isEnabled cfg (js "Other")) eqn:Hen; [|done].
    apply elem_of_activeBanks, Hactive in Hen.
    apply (bool_decide_pack _) in Hen. vm_compute in Hen. destruct Hen.
Qed.

Lemma unconfigured_banks_never_shown_witness :
  isEnabled App.DEFAULT_CONFIGS (js "Other") = false.
Proof.
  apply (unconfigured_banks_never_shown Examples.lower [] App.DEFAULT_CONFIGS).
  apply App.reachable_init.
Defined.

(** * The extraction service and the handlers of [App] *)

Lemma orString_nonempty (x : option jsstring) (d : jsstring) :
  d ≠ [] → Service.orString x d ≠ [].
Proof. intros Hd. by destruct x as [[|c s]|]. Qed.

(** X17. Every entry the service builds from an answer has a non-empty
    bank name and a non-empty category: an absent or empty field is
    replaced by "Other", respectively by "Manual Category" or "Unknown". *)
Theorem service_entries_are_named :
  (∀ text answer nonce e,
     e ∈ Service.parseUserContext text answer nonce →
     Entry.bankName e ≠ [] ∧ Entry.category e ≠ [])
  ∧ (∀ answer nonce entries e,
       Service.parseCashbackScreenshot answer nonce = Some entries →
       e ∈ entries →
       Entry.bankName e ≠ [] ∧ Entry.category e ≠ [])
  ∧ (∀ currentData userInstruction rawData nonce entries e,
       Service.isBlank userInstruction = false →
       Service.refineDataWithContext currentData userInstruction
         (Service.Parsed rawData) nonce = Some entries →
       e ∈ entries →
       Entry.bankName e ≠ [] ∧ Entry.category e ≠ []).
Proof.
  split_and!.
  - intros text answer nonce e. unfold Service.parseUserContext.
    destruct (Service.isBlank text); [intros H; by apply elem_of_nil in H|].
    destruct answer as [| |rawData]; try (intros H; by apply elem_of_nil in H).
    intros (i & item & -> & _)%elem_of_lookup_imap_1. simpl.
    split; apply orString_nonempty; discriminate.
  - intros answer nonce entries e. unfold Service.parseCashbackScreenshot.
    destruct answer as [| |rawData]; [done| |].
    + intros [= <-] H. by apply elem_of_nil in H.
    + intros [= <-] (i & item & -> & _)%elem_of_lookup_imap_1. simpl.
      split; apply orString_nonempty; discriminate.
  - intros currentData userInstruction rawData nonce entries e Hblank.
    unfold Service.refineDataWithContext. rewrite Hblank.
    intros [= <-] (i & item & -> & _)%elem_of_lookup_imap_1. simpl.
    split; apply orString_nonempty; discriminate.
Qed.

Lemma service_entries_are_named_witness :
  Entry.bankName
    (Entry.mk (js "1700000000001-def") (js "Other") (js "Unknown") 0 None) ≠ []
  ∧ Entry.category
      (Entry.mk (js "1700000000001-def") (js "Other") (js "Unknown") 0 None) ≠ [].
Proof.
  apply (proj1 (proj2 service_entries_are_named)
           (Service.Parsed [ AppExamples.bareItem ]) (λ _, js "1700000000001-def")
           [ Entry.mk (js "1700000000001-def") (js "Other") (js "Unknown") 0 None ]).
  - vm_compute. reflexivity.
  - apply list_elem_of_here.
Defined.

Lemma fileResults_S (env : App.answers) (i n : nat) :
  App.fileResults env i (S n)
  = Service.parseCashbackScreenshot (App.screenshot env i) (App.screenshotNonce env i)
      :: App.fileResults env (S i) n.
Proof. reflexivity. Qed.

Lemma processFiles_entries (env : App.answers) (files : list Upload.File) :
  ∀ i newEntries st,
    (App.processFiles env i files newEntries st).1
    = newEntries
        ++ List.concat
             (List.map (default []) (App.fileResults env i (length files))).
Proof.
  induction files as [|file rest IH]; intros i newEntries st.
  - simpl. by rewrite app_nil_r.
  - cbn [App.processFiles length]. rewrite fileResults_S.
    destruct (Service.parseCashbackScreenshot _ _) as [entries|];
      rewrite IH; simpl; by rewrite ?app_assoc.
Qed.

Lemma processFiles_status (env : App.answers) (files : list Upload.File) :
  ∀ i newEntries st,
    let st' := (App.processFiles env i files newEntries st).2 in
    App.total st' = App.total st
    ∧ App.isProcessing st' = App.isProcessing st
    ∧ App.processed st'
      = (App.processed st
         + length (List.filter (λ r, bool_decide (is_Some r))
                               (App.fileResults env i (length files))))%nat
    ∧ (App.error st' = None
       ↔ App.error st = None
         ∧ Forall is_Some (App.fileResults env i (length files))).
Proof.
  induction files as [|file rest IH]; intros i newEntries st.
  - simpl. split_and!; [done|done|lia|]. split; [by split|by intros [? _]].
  - cbn [App.processFiles length]. rewrite fileResults_S.
    destruct (Service.parseCashbackScreenshot _ _) as [entries|] eqn:Hcall.
    + destruct (IH (S i) (newEntries ++ entries)
                  (App.mkStatus (App.total st) (S (App.processed st))
                                (App.isProcessing st) (App.error st)))
        as (Htotal & Hproc & Hcount & Herr).
      cbv zeta in *. simpl in *. split_and!; [done|done| |].
      * rewrite Hcount. simpl. lia.
      * rewrite Herr, Forall_cons. split; [intros [? ?]|intros [? [_ ?]]]; done.
    + destruct (IH (S i) newEntries
                  (App.mkStatus (App.total st) (App.processed st)
                                (App.isProcessing st)
                                (Some (App.fileError file))))
        as (Htotal & Hproc & Hcount & Herr).
      cbv zeta in *. simpl in *. split_and!; [done|done| |].
      * rewrite Hcount. simpl. lia.
      * rewrite Herr, Forall_cons. split.
        -- intros [? _]. done.
        -- intros [_ [[? ?] _]]. done.
Qed.

(** X18. Processing a batch of files never loses data: the new data is the
    old data, followed by the entries read from the comment, followed by
    the entries of the files whose extraction succeeded, in file order; a
    file whose extraction fails contributes nothing. Afterwards the status
    counts exactly the successful files, is no longer processing, and
    carries an error message exactly when some extraction failed; the
    configuration and the comments are untouched. *)
Theorem handleFilesSelected_appends
        (env : App.answers) (st : App.state) (files : list Upload.File) :
  let st' := App.handleFilesSelected env st files in
  let results := App.fileResults env 0 (length files) in
  App.data st'
  = App.data st ++ App.contextEntries env st
      ++ List.concat (List.map (default []) results)
  ∧ App.total (App.status st') = length files
  ∧ App.processed (App.status st')
    = length (List.filter (λ r, bool_decide (is_Some r)) results)
  ∧ App.isProcessing (App.status st') = false
  ∧ (App.error (App.status st') = None ↔ Forall is_Some results)
  ∧ App.bankConfigs st' = App.bankConfigs st
  ∧ App.userComment st' = App.userComment st
  ∧ App.refinementComment st' = App.refinementComment st.
Proof.
  cbv zeta. unfold App.handleFilesSelected. cbv zeta.
  set (ctx := if negb (Service.isBlank (App.userComment st)) then _ else _).
  assert (Hctx : ctx = App.contextEntries env st).
  { unfold ctx, App.contextEntries. by destruct (negb _). }
  pose proof (processFiles_entries env files 0 ctx
                (App.mkStatus (length files) 0 true None)) as Hentries.
  pose proof (processFiles_status env files 0 ctx
                (App.mkStatus (length files) 0 true None)) as Hstatus.
  cbv zeta in Hstatus.
  destruct (App.processFiles env 0 files ctx _) as [newEntries status1].
  simpl in *. destruct Hstatus as (Htotal & _ & Hcount & Herr).
  split_and!; try done.
  - by rewrite Hentries, Hctx.
  - rewrite Herr. split; [by intros [_ ?]|by split].
Qed.

Lemma handleFilesSelected_appends_witness :
  App.error
    (App.status
       (App.handleFilesSelected AppExamples.env AppExamples.commented
          [ AppExamples.shot ]))
  = None.
Proof.
  destruct (handleFilesSelected_appends AppExamples.env AppExamples.commented
              [ AppExamples.shot ]) as (_ & _ & _ & _ & Herr & _).
  apply Herr. apply (bool_decide_unpack _). vm_compute. exact I.
Defined.

(** X19. A correction request replaces the data only when the comment is
    not blank, the data is not empty and the service answers with a parsed
    array, and then the new data has one entry per item of the answer.
    When the call fails, the data and the comment are kept as they are. The
    configuration, the status and the upload comment are never touched. *)
Theorem handleRefineData_preserves (env : App.answers) (st : App.state) :
  let st' := App.handleRefineData env st in
  (App.refinement env = Service.Rejected →
   App.data st' = App.data st
   ∧ App.refinementComment st' = App.refinementComment st)
  ∧ (App.data st' ≠ App.data st →
     Service.isBlank (App.refinementComment st) = false
     ∧ App.data st ≠ []
     ∧ ∃ rawData,
         App.refinement env = Service.Parsed rawData
         ∧ length (App.data st') = length rawData)
  ∧ App.bankConfigs st' = App.bankConfigs st
  ∧ App.status st' = App.status st
  ∧ App.userComment st' = App.userComment st.
Proof.
  cbv zeta. unfold App.handleRefineData, Service.refineDataWithContext.
  destruct (Service.isBlank (App.refinementComment st)) eqn:Hblank; simpl.
  { split_and!; try done. }
  destruct (App.data st) as [|e rest] eqn:Hdata; simpl.
  { rewrite Hdata. split_and!; try done. }
  destruct (App.refinement env) as [| |rawData] eqn:Hanswer; simpl;
    rewrite ?Hdata; split_and!; try done.
  intros _. split_and!; [done|done|]. exists rawData.
  split; [done|]. apply length_imap.
Qed.

Lemma handleRefineData_preserves_witness :
  App.data (App.handleRefineData AppExamples.env AppExamples.commented)
  = App.data AppExamples.commented
  ∧ App.refinementComment (App.handleRefineData AppExamples.env AppExamples.commented)
    = App.refinementComment AppExamples.commented.
Proof.
  apply (proj1 (handleRefineData_preserves AppExamples.env AppExamples.commented)).
  reflexivity.
Defined.

(** ** The upload zone *)




(** * The tabular export read back *)

Lemma splitOn_free (sep : N) (p : jsstring) : sep ∉ p → splitOn sep p = [ p ].
Proof.
  induction p as [|c p IH]; simpl; [done|].
  intros [Hne Hp]%not_elem_of_cons.
  destruct (N.eqb_spec c sep) as [->|_]; [done|]. by rewrite IH.
Qed.

Lemma splitOn_app_sep (sep : N) (p rest : jsstring) :
  sep ∉ p → splitOn sep (p ++ sep :: rest) = p :: splitOn sep rest.
Proof.
  induction p as [|c p IH]; simpl.
  - intros _. by rewrite N.eqb_refl.
  - intros [Hne Hp]%not_elem_of_cons.
    destruct (N.eqb_spec c sep) as [->|_]; [done|]. by rewrite IH.
Qed.

Lemma splitOn_join (sep : N) (parts : list jsstring) :
  parts ≠ [] → Forall (λ p, sep ∉ p) parts →
  splitOn sep (JsString.join [ sep ] parts) = parts.
Proof.
  induction parts as [|p parts IH]; [done|]. intros _ Hall.
  apply Forall_cons in Hall as [Hp Hall].
  destruct parts as [|q parts].
  - simpl. by apply splitOn_free.
  - change (JsString.join [sep] (p :: q :: parts))
      with (p ++ sep :: JsString.join [sep] (q :: parts)).
    rewrite splitOn_app_sep by done. f_equal. by apply IH.
Qed.

Lemma utf16_of_ascii (bs : list N) :
  Forall (λ b, (b < 128)%N) bs → JsString.utf16_of_utf8 bs = bs.
Proof.
  induction 1 as [|b bs Hb _ IH]; [done|].
  cbn [JsString.utf16_of_utf8].
  destruct (N.ltb_spec b 128) as [_|?]; [|lia]. by rewrite IH.
Qed.

Lemma string_of_uint_digits (d : Decimal.uint) :
  Forall (λ b, (48 ≤ b ≤ 57)%N)
         (List.map N_of_ascii (list_ascii_of_string (NilEmpty.string_of_uint d))).
Proof.
  induction d; simpl; [constructor|constructor; [lia|done]..].
Qed.

Lemma ofNumber_chars (n : Z) (c : N) :
  c ∈ JsString.ofNumber n → c = 45%N ∨ (48 ≤ c ≤ 57)%N.
Proof.
  unfold JsString.ofNumber, JsString.lit.
  assert (Hall : Forall (λ b, b = 45%N ∨ (48 ≤ b ≤ 57)%N)
                   (List.map N_of_ascii
                      (list_ascii_of_string (NilZero.string_of_int (Z.to_int n))))).
  { destruct (Z.to_int n) as [d|d]; simpl.
    - destruct d; try (eapply Forall_impl; [apply string_of_uint_digits|];
                       intros b Hb; by right).
      constructor; [right; vm_compute; split; discriminate|constructor].
    - constructor; [by left|].
      destruct d; try (eapply Forall_impl; [apply string_of_uint_digits|];
                       intros b Hb; by right).
      constructor; [right; vm_compute; split; discriminate|constructor]. }
  rewrite utf16_of_ascii.
  - rewrite Forall_forall in Hall. apply Hall.
  - eapply Forall_impl; [exact Hall|]. intros b [->|Hb]; lia.
Qed.

Lemma exportCell_plain (sep : N) (v : Cell.t) :
  sep = 9%N ∨ sep = 10%N → sep ∉ exportCell v.
Proof.
  intros Hsep. unfold exportCell.
  destruct (Cell.percentage v) as [p|]; [|apply not_elem_of_nil].
  destruct (p =? 0); [apply not_elem_of_nil|].
  intros [Hin|Hin]%elem_of_app.
  - apply ofNumber_chars in Hin. lia.
  - vm_compute in Hin. apply list_elem_of_singleton in Hin. lia.
Qed.

Lemma join_plain (sep c : N) (parts : list jsstring) :
  c ≠ sep → Forall (λ p, c ∉ p) parts → c ∉ JsString.join [ sep ] parts.
Proof.
  intros Hne. induction 1 as [|p parts Hp Hall IH]; [apply not_elem_of_nil|].
  destruct parts as [|q parts]; [done|].
  change (JsString.join [sep] (p :: q :: parts))
    with (p ++ sep :: JsString.join [sep] (q :: parts)).
  rewrite elem_of_app, elem_of_cons. intros [?|[?|?]]; [done|done|by apply IH].
Qed.

Lemma header_label_plain : plain (js "Категория").
Proof. apply (bool_decide_unpack _). vm_compute. exact I. Qed.

(** X21. The tabular export can be read back: when the matrix and the bank
    list are not empty and no bank or category name contains a tab or a
    line feed, cutting the exported text at line feeds and each line at
    tabs gives the header cells followed by, for every matrix row in
    order, its name and the texts of its cells, one per bank. *)
Theorem export_reads_back (m : list Row.t) (banks : list jsstring) :
  m ≠ [] → banks ≠ [] →
  Forall plain banks →
  Forall (λ row, plain (Row.name row) ∧ Row.values row ≠ []) m →
  List.map (splitOn 9) (splitOn 10 (copyToClipboard m banks))
  = (js "Категория" :: banks)
      :: List.map (λ row, Row.name row :: List.map exportCell (Row.values row)) m.
Proof.
  intros Hm Hbanks Hplain Hrows.
  rewrite Forall_forall in Hplain. rewrite Forall_forall in Hrows.
  assert (Hheader : exportHeader banks = JsString.join [9%N] (js "Категория" :: banks)).
  { unfold exportHeader. by destruct banks. }
  assert (Hrow : ∀ row, row ∈ m →
            exportRow row
            = JsString.join [9%N]
                (Row.name row :: List.map exportCell (Row.values row))).
  { intros row Hin. destruct (Hrows row Hin) as [_ Hvals].
    unfold exportRow. cbv zeta. by destruct (Row.values row). }
  rewrite copyToClipboard_lines by done.
  change newline with [10%N]. rewrite splitOn_join.
  - cbn [List.map]. f_equal.
    + rewrite Hheader. apply splitOn_join; [done|].
      constructor; [apply header_label_plain|].
      apply Forall_forall. intros b Hb. by apply Hplain.
    + rewrite List.map_map. apply List.map_ext_in.
      intros row Hin%list_elem_of_In. rewrite (Hrow row Hin).
      apply splitOn_join; [done|]. constructor.
      * by apply Hrows.
      * apply Forall_forall. intros t (v & -> & _)%list_elem_of_fmap.
        apply exportCell_plain. by left.
  - done.
  - constructor.
    + rewrite Hheader. apply join_plain; [done|]. constructor.
      * apply header_label_plain.
      * apply Forall_forall. intros b Hb. by apply Hplain.
    + apply Forall_forall. intros line (row & -> & Hin)%list_elem_of_fmap.
      rewrite (Hrow row Hin). apply join_plain; [done|]. constructor.
      * by apply Hrows.
      * apply Forall_forall. intros t (v & -> & _)%list_elem_of_fmap.
        apply exportCell_plain. by right.
Qed.

Lemma export_reads_back_witness :
  List.map (splitOn 9)
    (splitOn 10
       (copyToClipboard
          (matrix Examples.lower Examples.cafeData Examples.cafeConfig)
          (targetBanks Examples.cafeConfig)))
  = (js "Категория" :: targetBanks Examples.cafeConfig)
      :: List.map (λ row, Row.name row :: List.map exportCell (Row.values row))
           (matrix Examples.lower Examples.cafeData Examples.cafeConfig).
Proof.
  apply export_reads_back.
  - vm_compute. discriminate.
  - vm_compute. discriminate.
  - apply (bool_decide_unpack _). vm_compute. exact I.
  - apply Forall_forall. intros row Hrow. vm_compute in Hrow.
    apply list_elem_of_singleton in Hrow as ->. split.
    + apply (bool_decide_unpack _). vm_compute. exact I.
    + discriminate.
Defined.

(** * Limits typed into the settings panel *)












